(** * The data pipeline of [app.py]

    [app.py] is a dashboard script: it loads a CSV of tracks, derives a
    decade column, filters by the selected decades and computes four view
    artifacts (yearly means, decade fingerprint, top songs, scatter sample).
    This file embeds that pipeline and states its properties.

    Modelling conventions.
    - A [DataFrame] is the list of its rows, in row order.
    - Integer columns ([year], [popularity], [decade]) are int64, written
      as [Z]; the one arithmetic result on them, the decade, wraps around
      when it leaves the range.
    - The artists column holds a text or nothing: a missing cell is a
      float NaN, on which the cleanup of the top songs raises.
    - Feature columns are float64, IEEE 754 double precision, through
      Rocq's primitive floats ([binary64]).  The pipeline is written over
      an abstract arithmetic ([Arith]) so that what does not depend on the
      arithmetic is stated once for all.
    - The means follow the libraries' order of summation:
      [DataFrame.mean] adds a column up with numpy's pairwise sum,
      [groupby.mean] with a compensated sum in row order.
    - [sort_values] runs numpy's quicksort (the default [kind]) as
      [npysort/quicksort.cpp] has it; what holds of any sort is stated
      under the contract of [argsort].
    - The pseudo-random permutation of [sample] is a section variable
      constrained by its contract. *)

From Stdlib Require Import ZArith QArith Qabs Lqa List String Ascii Bool Lia.
From Stdlib Require Import Permutation Sorted.
From Stdlib Require Import Floats.
Import ListNotations.

Set Implicit Arguments.
Close Scope Q_scope.

(* ================================================================== *)
(** * Arithmetic of the feature columns *)

Class Arith (F : Type) := {
  f_zero : F;
  (** the zero of negative sign; where zeros have no sign, the zero *)
  f_neg_zero : F;
  f_one : F;
  f_nan : F;
  f_add : F -> F -> F;
  f_sub : F -> F -> F;
  f_mul : F -> F -> F;
  f_div : F -> F -> F;
  f_lt : F -> F -> bool;
  f_isnan : F -> bool;
  f_isinf : F -> bool;
  (** conversion of a row count *)
  f_of_nat : nat -> F;
  (** [10 * np.finfo(np.float64).eps], that is [10 * 2^-52] *)
  f_ten_eps : F
}.

(** ** IEEE 754 binary64, through Rocq's primitive floats *)

Definition ten_eps64 : float := Eval vm_compute in (10 * 0x1p-52)%float.

#[export] Instance binary64 : Arith float := {|
  f_zero := 0%float;
  f_neg_zero := (-0)%float;
  f_one := 1%float;
  f_nan := PrimFloat.nan;
  f_add := PrimFloat.add;
  f_sub := PrimFloat.sub;
  f_mul := PrimFloat.mul;
  f_div := PrimFloat.div;
  f_lt := PrimFloat.ltb;
  f_isnan := PrimFloat.is_nan;
  f_isinf := PrimFloat.is_infinity;
  f_of_nat := fun n => PrimFloat.of_uint63 (Uint63.of_Z (Z.of_nat n));
  f_ten_eps := ten_eps64
|}.

(** A double that is neither NaN nor infinite. *)
Definition finite64 (x : float) : Prop :=
  match Prim2SF x with
  | S754_zero _ | S754_finite _ _ _ => True
  | _ => False
  end.

(** ** Rationals with a NaN ([None])

    An arithmetic without rounding and without infinity, where a
    division by zero gives NaN.  It is not the arithmetic of the script;
    it serves where a statement holds in any arithmetic. *)

Definition xQ := option Q.

Definition xlift2 (op : Q -> Q -> Q) (a b : xQ) : xQ :=
  match a, b with
  | Some x, Some y => Some (op x y)
  | _, _ => None
  end.

Definition xdiv (a b : xQ) : xQ :=
  match a, b with
  | Some x, Some y => if Qeq_bool y 0%Q then None else Some (x / y)%Q
  | _, _ => None
  end.

Definition Qltb (x y : Q) : bool := negb (Qle_bool y x).

Definition xlt (a b : xQ) : bool :=
  match a, b with
  | Some x, Some y => Qltb x y
  | _, _ => false
  end.

Definition xisnan (a : xQ) : bool :=
  match a with None => true | Some _ => false end.

#[export] Instance exact : Arith xQ := {|
  f_zero := Some 0%Q;
  f_neg_zero := Some 0%Q;
  f_one := Some 1%Q;
  f_nan := None;
  f_add := xlift2 Qplus;
  f_sub := xlift2 Qminus;
  f_mul := xlift2 Qmult;
  f_div := xdiv;
  f_lt := xlt;
  f_isnan := xisnan;
  f_isinf := fun _ => false;
  f_of_nat := fun n => Some (inject_Z (Z.of_nat n));
  f_ten_eps := Some (10 # 4503599627370496)%Q
|}.

(* ================================================================== *)
(** * Data model *)

(** A row of [data/data.csv], restricted to the columns the script reads. *)
Record CsvRow (F : Type) := mkCsvRow {
  csv_name : string;
  (** [None] is a missing cell, which [read_csv] stores as a float NaN *)
  csv_artists : option string;
  csv_year : Z;
  csv_popularity : Z;
  csv_danceability : F;
  csv_energy : F;
  csv_valence : F;
  csv_acousticness : F;
  csv_speechiness : F;
  csv_loudness : F;
  csv_tempo : F
}.

(** A row of the working table: the CSV columns and the derived [decade]. *)
Record Track (F : Type) := mkTrack {
  name : string;
  artists : option string;
  year : Z;
  popularity : Z;
  danceability : F;
  energy : F;
  valence : F;
  acousticness : F;
  speechiness : F;
  loudness : F;
  tempo : F;
  decade : Z
}.

Definition DataFrame (F : Type) := list (Track F).

(* ================================================================== *)
(** * Loader: [load_data] *)

Section Loader.
Context {F : Type}.

Open Scope Z_scope.

(** The [year] column is int64.  A result of int64 arithmetic that leaves
    the range wraps around (two's complement), silently. *)
Definition int64_min : Z := -9223372036854775808.
Definition int64_max : Z := 9223372036854775807.

Definition int64 (z : Z) : Prop := int64_min <= z <= int64_max.

Definition wrap64 (z : Z) : Z :=
  (z + 9223372036854775808) mod 18446744073709551616 - 9223372036854775808.

(** The least year whose [floor(year / 10) * 10] is an int64: the eight
    years below it, [int64_min] to [int64_min + 7], have the product
    [-9223372036854775810], which wraps. *)
Definition first_exact_year : Z := -9223372036854775800.

(** [(df['year'] // 10) * 10]; [//] is floor division, as [Z.div] is
    for a positive divisor, and the product is an int64 product. *)
Definition decade_of (y : Z) : Z := wrap64 ((y / 10) * 10).

(** [df['decade'] = (df['year'] // 10) * 10] on one row. *)
Definition add_decade (r : CsvRow F) : Track F :=
  {| name := csv_name r;
     artists := csv_artists r;
     year := csv_year r;
     popularity := csv_popularity r;
     danceability := csv_danceability r;
     energy := csv_energy r;
     valence := csv_valence r;
     acousticness := csv_acousticness r;
     speechiness := csv_speechiness r;
     loudness := csv_loudness r;
     tempo := csv_tempo r;
     decade := decade_of (csv_year r) |}.

(** [load_data], given the rows [pd.read_csv] returned. *)
Definition load_data (csv : list (CsvRow F)) : DataFrame F :=
  filter (fun r => 1960 <=? decade r) (map add_decade csv).

End Loader.

(* ================================================================== *)
(** * Filter: [filtered_data] *)

Section Filter.
Context {F : Type}.

Open Scope Z_scope.

(** [Series.isin(values)] on one cell. *)
Definition isin (values : list Z) (x : Z) : bool :=
  existsb (Z.eqb x) values.

(** [data[data['decade'].isin(selected_decades)]] *)
Definition filtered_data (data : DataFrame F) (selected_decades : list Z)
  : DataFrame F :=
  filter (fun r => isin selected_decades (decade r)) data.

(** [Series.unique()]: the distinct values in order of first appearance. *)
Fixpoint unique (l : list Z) : list Z :=
  match l with
  | [] => []
  | x :: t => x :: filter (fun y => negb (y =? x)) (unique t)
  end.

(** [sorted] on integers. *)
Fixpoint insert_sorted (x : Z) (l : list Z) : list Z :=
  match l with
  | [] => [x]
  | y :: t => if x <=? y then x :: l else y :: insert_sorted x t
  end.

Definition sorted (l : list Z) : list Z :=
  fold_right insert_sorted [] l.

(** [sorted(data['decade'].unique())]: the options, and the default, of
    the decade multiselect. *)
Definition decade_options (data : DataFrame F) : list Z :=
  sorted (unique (map (@decade F) data)).

End Filter.

(** [l1] is [l2] with some elements left out, the others in the same order. *)
Inductive Subsequence {A : Type} : list A -> list A -> Prop :=
| Subseq_nil : Subsequence [] []
| Subseq_keep x l1 l2 : Subsequence l1 l2 -> Subsequence (x :: l1) (x :: l2)
| Subseq_drop x l1 l2 : Subsequence l1 l2 -> Subsequence l1 (x :: l2).

(* ================================================================== *)
(** * Exceptions *)

Inductive exn := ValueError | IndexError | AttributeError.

Inductive result (A : Type) :=
| Ok (a : A)
| Raise (e : exn).

Arguments Ok {A} a.
Arguments Raise {A} e.

Definition bind {A B : Type} (m : result A) (k : A -> result B) : result B :=
  match m with
  | Ok a => k a
  | Raise e => Raise e
  end.

Notation "x <- m ;; k" := (bind m (fun x => k))
  (at level 61, m at next level, right associativity).

(** [DataFrame.take(indexer)] / [iloc]: the rows at the given positions, in
    the order of the positions. *)
Fixpoint take {A : Type} (rows : list A) (indexer : list nat) : result (list A) :=
  match indexer with
  | [] => Ok []
  | i :: t =>
      match nth_error rows i with
      | None => Raise IndexError
      | Some r => rest <- take rows t ;; Ok (r :: rest)
      end
  end.

(** [DataFrame.head(n)] for [n >= 0]. *)
Definition head {A : Type} (n : nat) (rows : list A) : list A := firstn n rows.

(* ================================================================== *)
(** * Means of a column, as [DataFrame.mean] and [groupby.mean]

    The script takes means in two ways, and the two add a column up in
    different orders.  [DataFrame.mean] goes through [nanops.nanmean]:
    the missing values are replaced by 0, the column is added up by
    [ndarray.sum] and the sum is divided by the number of values
    present.  [groupby(...).mean()] goes through [group_mean] of
    [_libs/groupby.pyx]: one pass over the rows, with a compensated
    (Kahan) sum for each group.  In both the mean of no value is NaN. *)

Section Means.
Context {F : Type} {AF : Arith F}.

(** ** [ndarray.sum] of a contiguous column: numpy's pairwise sum

    [DOUBLE_pairwise_sum] of [loops_utils.h]: fewer than 8 values are
    added one after the other, starting from -0; up to 128 values are
    added into 8 running sums, which are then added two by two, and the
    values left over are added one after the other; a longer column is
    cut in two at a multiple of 8 near its middle. *)
Definition pairwise_few (a : list F) : F := fold_left f_add a f_neg_zero.

Fixpoint pairwise_unrolled (r0 r1 r2 r3 r4 r5 r6 r7 : F) (a : list F) : F :=
  match a with
  | x0 :: x1 :: x2 :: x3 :: x4 :: x5 :: x6 :: x7 :: rest =>
      pairwise_unrolled (f_add r0 x0) (f_add r1 x1) (f_add r2 x2) (f_add r3 x3)
                        (f_add r4 x4) (f_add r5 x5) (f_add r6 x6) (f_add r7 x7)
                        rest
  | _ =>
      fold_left f_add a
        (f_add (f_add (f_add r0 r1) (f_add r2 r3))
               (f_add (f_add r4 r5) (f_add r6 r7)))
  end.

Definition pairwise_block (a : list F) : F :=
  match a with
  | x0 :: x1 :: x2 :: x3 :: x4 :: x5 :: x6 :: x7 :: rest =>
      pairwise_unrolled x0 x1 x2 x3 x4 x5 x6 x7 rest
  | _ => pairwise_few a
  end.

(** The fuel counts the cuts; a column of [n] values is cut fewer than
    [n] times. *)
Fixpoint pairwise_sum_cut (fuel : nat) (a : list F) : F :=
  let n := List.length a in
  if (n <? 8)%nat then pairwise_few a
  else if (n <=? 128)%nat then pairwise_block a
  else
    match fuel with
    | O => pairwise_block a
    | S fuel' =>
        let n2 := (n / 2)%nat in
        let n2 := (n2 - n2 mod 8)%nat in
        f_add (pairwise_sum_cut fuel' (firstn n2 a))
              (pairwise_sum_cut fuel' (skipn n2 a))
    end.

Definition pairwise_sum (a : list F) : F := pairwise_sum_cut (List.length a) a.

(** [a.sum()]: the reduction starts from the identity of the addition. *)
Definition np_sum (a : list F) : F := f_add f_zero (pairwise_sum a).

(** ** [nanops.nanmean] *)

(** [_get_values(values, skipna, fill_value=0)] *)
Definition fill_missing (x : F) : F := if f_isnan x then f_zero else x.

(** [_get_counts]: the number of values present *)
Definition count_present (values : list F) : nat :=
  List.length (filter (fun x => negb (f_isnan x)) values).

(** [the_sum / count], NaN where [count == 0] *)
Definition mean (values : list F) : F :=
  match count_present values with
  | O => f_nan
  | S _ =>
      f_div (np_sum (map fill_missing values))
            (f_of_nat (count_present values))
  end.

(** ** [group_mean]: the compensated sum of one column of one group *)

Record ColAcc := mkColAcc {
  sumx : F;
  compensation : F;
  nobs : nat
}.

Definition col_init : ColAcc := mkColAcc f_zero f_zero 0.

(** One row: a missing value is passed over; otherwise
    [y = val - compensation; t = sumx + y;
     compensation = t - sumx - y], the compensation being reset to 0
    when it is NaN, and [sumx = t]. *)
Definition col_add (a : ColAcc) (val : F) : ColAcc :=
  if f_isnan val then a
  else
    let y := f_sub val (compensation a) in
    let t := f_add (sumx a) y in
    let c := f_sub (f_sub t (sumx a)) y in
    mkColAcc t (if f_isnan c then f_zero else c) (S (nobs a)).

(** [sumx / nobs], NaN when nothing was observed *)
Definition col_mean (a : ColAcc) : F :=
  match nobs a with
  | O => f_nan
  | S _ => f_div (sumx a) (f_of_nat (nobs a))
  end.

Definition groupby_mean (values : list F) : F :=
  col_mean (fold_left col_add values col_init).

End Means.

(* ================================================================== *)
(** * Trend aggregator: [yearly_avg_features] *)

(** A row of [yearly_avg_features]: the group key and the four means. *)
Record YearRow (F : Type) := mkYearRow {
  yr_year : Z;
  yr_danceability : F;
  yr_energy : F;
  yr_valence : F;
  yr_acousticness : F
}.

Section Trend.
Context {F : Type} {AF : Arith F}.

Open Scope Z_scope.

(** Accumulators of one group, one per selected column. *)
Record GroupAcc := mkGroupAcc {
  g_danceability : ColAcc (F := F);
  g_energy : ColAcc (F := F);
  g_valence : ColAcc (F := F);
  g_acousticness : ColAcc (F := F)
}.

Definition group_init : GroupAcc :=
  mkGroupAcc col_init col_init col_init col_init.

Definition group_add (g : GroupAcc) (r : Track F) : GroupAcc :=
  mkGroupAcc (col_add (g_danceability g) (danceability r))
             (col_add (g_energy g) (energy r))
             (col_add (g_valence g) (valence r))
             (col_add (g_acousticness g) (acousticness r)).

Definition Groups : Type := list (Z * GroupAcc).

(** The groups are kept ordered by key ([groupby] sorts its keys): a row
    either joins the group of its year or opens a new group in place. *)
Fixpoint upsert (r : Track F) (gs : Groups) : Groups :=
  match gs with
  | [] => [(year r, group_add group_init r)]
  | (y, g) :: t =>
      if year r <? y then (year r, group_add group_init r) :: gs
      else if year r =? y then (y, group_add g r) :: t
      else (y, g) :: upsert r t
  end.

Definition groupby_year (df : DataFrame F) : Groups :=
  fold_left (fun gs r => upsert r gs) df [].

Definition group_mean (yg : Z * GroupAcc) : YearRow F :=
  {| yr_year := fst yg;
     yr_danceability := col_mean (g_danceability (snd yg));
     yr_energy := col_mean (g_energy (snd yg));
     yr_valence := col_mean (g_valence (snd yg));
     yr_acousticness := col_mean (g_acousticness (snd yg)) |}.

(** [filtered_data.groupby('year')[[...]].mean().reset_index()] *)
Definition yearly_avg_features (df : DataFrame F) : list (YearRow F) :=
  map group_mean (groupby_year df).

(** The rows of one year, in table order. *)
Definition rows_of_year (df : DataFrame F) (y : Z) : DataFrame F :=
  filter (fun r => year r =? y) df.

(** Reading the groups: their keys, the accumulator stored under a key,
    and the accumulator a key has or would start from. *)
Definition keys_of (gs : Groups) : list Z := map fst gs.

Fixpoint assoc (y : Z) (gs : Groups) : option GroupAcc :=
  match gs with
  | [] => None
  | (k, g) :: t => if k =? y then Some g else assoc y t
  end.

Definition acc_of (y : Z) (gs : Groups) : GroupAcc :=
  match assoc y gs with Some g => g | None => group_init end.

End Trend.

(* ================================================================== *)
(** * Fingerprint aggregator: [decade_features], [radar_values] *)

Section Fingerprint.
Context {F : Type} {AF : Arith F}.

Open Scope Z_scope.

(** [filtered_data[filtered_data['decade'] == selected_decade_radar]].
    The select box returns [None] when it has no options; comparing the
    column with [None] selects no row. *)
Definition decade_slice (df : DataFrame F) (selected_decade_radar : option Z)
  : DataFrame F :=
  match selected_decade_radar with
  | Some d => filter (fun r => decade r =? d) df
  | None => []
  end.

(** The select box of the focus decade: the options are the decades of
    the filtered table, the default is the last one. *)
Definition default_decade_radar (df : DataFrame F) : option Z :=
  match decade_options df with
  | [] => None
  | d :: t => Some (last t d)
  end.

(** [...[['danceability','energy','valence','acousticness','speechiness']].mean()]:
    the five selected columns are one block of the frame, each column
    contiguous in it, and [nanmean] adds each of them up on its own. *)
Definition decade_features (slice : DataFrame F) : list F :=
  [ mean (map (@danceability F) slice);
    mean (map (@energy F) slice);
    mean (map (@valence F) slice);
    mean (map (@acousticness F) slice);
    mean (map (@speechiness F) slice) ].

(** [np.nanmin], [np.nanmax] along the only column. *)
Definition nanmin (l : list F) : F :=
  match filter (fun x => negb (f_isnan x)) l with
  | [] => f_nan
  | x :: t => fold_left (fun a b => if f_lt b a then b else a) t x
  end.

Definition nanmax (l : list F) : F :=
  match filter (fun x => negb (f_isnan x)) l with
  | [] => f_nan
  | x :: t => fold_left (fun a b => if f_lt a b then b else a) t x
  end.

(** [_handle_zeros_in_scale], as of scikit-learn 1.0: a column whose range
    is below [10 * eps] counts as constant and gets the range 1 (earlier
    versions did so for a range equal to 0 only). *)
Definition handle_zeros_in_scale (scale : F) : F :=
  if f_lt scale f_ten_eps then f_one else scale.

(** [MinMaxScaler().fit_transform(X)] on a single column [X], with the
    default [feature_range = (0, 1)] and [clip = False].
    - fit: [data_range_ = data_max_ - data_min_],
      [scale_ = (1 - 0) / _handle_zeros_in_scale(data_range_)],
      [min_ = 0 - data_min_ * scale_];
    - transform: [X *= scale_; X += min_].
    Input validation rejects an empty column and infinite entries; NaN
    passes. *)
Definition data_range_ (X : list F) : F := f_sub (nanmax X) (nanmin X).

Definition scale_ (X : list F) : F :=
  f_div (f_sub f_one f_zero) (handle_zeros_in_scale (data_range_ X)).

Definition min_ (X : list F) : F :=
  f_sub f_zero (f_mul (nanmin X) (scale_ X)).

Definition transform (X : list F) (x : F) : F :=
  f_add (f_mul x (scale_ X)) (min_ X).

Definition fit_transform (X : list F) : result (list F) :=
  match X with
  | [] => Raise ValueError
  | _ =>
      if existsb f_isinf X then Raise ValueError
      else Ok (map (transform X) X)
  end.

(** [scaler.fit_transform(decade_features.values.reshape(-1, 1)).flatten()] *)
Definition radar_values (df : DataFrame F) (selected_decade_radar : option Z)
  : result (list F) :=
  fit_transform (decade_features (decade_slice df selected_decade_radar)).

End Fingerprint.

(** ** The value of a double

    The rational a double stands for, where it is a number. *)
Definition float_to_Q (x : float) : option Q :=
  match Prim2SF x with
  | S754_zero _ => Some 0%Q
  | S754_finite s m e =>
      Some ((if s then inject_Z (Zneg m) else inject_Z (Zpos m))
            * Qpower (2 # 1) e)%Q
  | _ => None
  end.

(** ** The arithmetic mean of the specification

    The mean of the values of a column taken as numbers: the sum of the
    rationals the doubles stand for, divided by their count. *)
Fixpoint values_to_Q (values : list float) : option (list Q) :=
  match values with
  | [] => Some []
  | x :: t =>
      match float_to_Q x, values_to_Q t with
      | Some q, Some qs => Some (q :: qs)
      | _, _ => None
      end
  end.

Definition Qsum (qs : list Q) : Q := fold_right Qplus 0%Q qs.

Definition spec_arithmetic_mean (values : list float) : option Q :=
  match values_to_Q values with
  | Some (q :: qs) =>
      Some (Qsum (q :: qs) / inject_Z (Z.of_nat (List.length (q :: qs))))%Q
  | _ => None
  end.

(** The double [x] is the arithmetic mean of [values]. *)
Definition holds_arithmetic_mean (x : float) (values : list float) : Prop :=
  exists q m, float_to_Q x = Some q /\
              spec_arithmetic_mean values = Some m /\ (q == m)%Q.

(* ================================================================== *)
(** * Artist string cleanup: [strip] of the brackets, [replace] of the quote *)

Section Strings.

Definition in_chars (chars : list ascii) (c : ascii) : bool :=
  existsb (Ascii.eqb c) chars.

(** [str.lstrip(chars)]: drop leading characters while they are in [chars]. *)
Fixpoint lstrip (chars s : list ascii) : list ascii :=
  match s with
  | [] => []
  | c :: t => if in_chars chars c then lstrip chars t else s
  end.

(** [str.rstrip(chars)]: the same from the right end. *)
Definition rstrip (chars s : list ascii) : list ascii :=
  rev (lstrip chars (rev s)).

(** [str.strip(chars)] *)
Definition strip (chars s : list ascii) : list ascii :=
  rstrip chars (lstrip chars s).

(** [str.replace(old, new)] for a one character [old] and the empty
    string as [new]: every occurrence of [old] is deleted. *)
Definition replace_by_empty (old : ascii) (s : list ascii) : list ascii :=
  filter (fun c => negb (Ascii.eqb c old)) s.

Definition brackets : list ascii := list_ascii_of_string "[]".
Definition quote : ascii := "'"%char.

(** The lambda applied to the artists column: [x.strip("[]")], then
    [replace] of the single quote by the empty string. *)
Definition clean_artists (x : string) : string :=
  string_of_list_ascii
    (replace_by_empty quote (strip brackets (list_ascii_of_string x))).

(** The cleanup as the specification words it: one leading "[" and one
    trailing "]" are removed when present, then every quote is deleted. *)
Definition spec_strip_leading (s : list ascii) : list ascii :=
  match s with
  | c :: t => if Ascii.eqb c "["%char then t else s
  | [] => []
  end.

Definition spec_strip_trailing (s : list ascii) : list ascii :=
  match rev s with
  | c :: t => if Ascii.eqb c "]"%char then rev t else s
  | [] => []
  end.

Definition spec_clean_artists (x : string) : string :=
  string_of_list_ascii
    (replace_by_empty quote
       (spec_strip_trailing (spec_strip_leading (list_ascii_of_string x)))).

End Strings.

(* ================================================================== *)
(** * Top-N selector: [top_songs] *)

Section TopSongs.
Context {F : Type}.

(** [ndarray.argsort(kind='quicksort')] on an integer column: the
    positions of the keys in ascending key order.  [sort_values] is
    called without [kind], so this is the default, unstable, algorithm;
    what it guarantees is [ArgsortContract] below. *)
Variable argsort : list Z -> list nat.

(** [nargsort(items, ascending=False)] for a column without missing
    values: the keys and their positions are reversed, argsorted in
    ascending order, and the resulting indexer is reversed. *)
Definition nargsort_desc (items : list Z) : list nat :=
  let idx := seq 0 (List.length items) in
  let non_nans := rev items in
  let non_nan_idx := rev idx in
  let indexer := map (fun j => nth j non_nan_idx 0%nat) (argsort non_nans) in
  rev indexer.

(** [df.sort_values(by='popularity', ascending=False)] *)
Definition sort_values_desc (df : DataFrame F) : result (DataFrame F) :=
  take df (nargsort_desc (map (@popularity F) df)).

(** The lambda on one cell of the artists column.  A missing cell is a
    float, which has no method [strip]: the call raises [AttributeError]. *)
Definition clean_cell (x : option string) : result string :=
  match x with
  | Some text => Ok (clean_artists text)
  | None => Raise AttributeError
  end.

Definition with_artists (r : Track F) (a : string) : Track F :=
  {| name := name r;
     artists := Some a;
     year := year r;
     popularity := popularity r;
     danceability := danceability r;
     energy := energy r;
     valence := valence r;
     acousticness := acousticness r;
     speechiness := speechiness r;
     loudness := loudness r;
     tempo := tempo r;
     decade := decade r |}.

Definition clean_row (r : Track F) : result (Track F) :=
  a <- clean_cell (artists r) ;; Ok (with_artists r a).

(** [top_songs['artists'] = top_songs['artists'].apply(...)]: the lambda
    is applied to the cells in row order, and the first call that raises
    ends the statement. *)
Fixpoint apply_clean (rows : DataFrame F) : result (DataFrame F) :=
  match rows with
  | [] => Ok []
  | r :: t => r' <- clean_row r ;; t' <- apply_clean t ;; Ok (r' :: t')
  end.

(** The selector with the length of the list as a parameter. *)
Definition top_n (n : nat) (df : DataFrame F) (selected_decade_radar : option Z)
  : result (DataFrame F) :=
  sorted_rows <- sort_values_desc (decade_slice df selected_decade_radar) ;;
  apply_clean (head n sorted_rows).

(** [top_songs], as the script computes it: [.head(5)]. *)
Definition top_songs (df : DataFrame F) (selected_decade_radar : option Z)
  : result (DataFrame F) :=
  top_n 5 df selected_decade_radar.


End TopSongs.

(** What [argsort] guarantees whatever the [kind]: the result is a
    permutation of the positions, and the keys read along it ascend. *)
Definition key_at (keys : list Z) (i : nat) : Z := nth i keys 0%Z.

Record ArgsortContract (argsort : list Z -> list nat) : Prop := {
  argsort_perm : forall keys,
    Permutation (argsort keys) (seq 0 (List.length keys));
  argsort_sorted : forall keys,
    StronglySorted (fun i j => (key_at keys i <= key_at keys j)%Z) (argsort keys)
}.




(** Two argsorts by insertion.  [insertion_argsort Z.ltb] places a position
    after the positions of equal keys already placed, which is stable;
    [insertion_argsort Z.leb] places it before them, which reverses the
    ties.  Both meet [ArgsortContract]. *)
Fixpoint insert_index (before : Z -> Z -> bool) (keys : list Z) (i : nat)
  (l : list nat) : list nat :=
  match l with
  | [] => [i]
  | j :: t =>
      if before (key_at keys i) (key_at keys j) then i :: l
      else j :: insert_index before keys i t
  end.

Definition insertion_argsort (before : Z -> Z -> bool) (keys : list Z) : list nat :=
  fold_left (fun acc i => insert_index before keys i acc) (seq 0 (List.length keys)) [].

(** ** [kind='quicksort'] of numpy, on an int64 column

    [npysort/quicksort.cpp], [aquicksort_]: an introsort on the array of
    positions.  A segment of more than 17 positions is partitioned around
    the median of its first, middle and last key; a segment of at most 17
    positions is sorted by insertion; a segment taken from the stack
    after [2 * floor(log2 n)] levels of partitioning is sorted by
    [aheapsort_].  A segment is the list of its positions. *)

Section Quicksort.
Variable v : list Z.

















End Quicksort.


(* ================================================================== *)
(** * Correlation sampler: [scatter_data] *)

Section Sampler.
Context {F : Type}.

(** The state of a [numpy.random.RandomState], the generator seeded with
    an integer, and [RandomState.permutation(n)], which returns a
    shuffled [arange(n)] and advances the generator. *)
Variable rng : Type.
Variable seeded : Z -> rng.
Variable permutation : rng -> nat -> list nat * rng.

(** [rs.choice(population, size=size, replace=False)] *)
Definition choice (rs : rng) (population size : nat) : result (list nat) * rng :=
  if (population <? size)%nat then (Raise ValueError, rs)
  else let (p, rs') := permutation rs population in (Ok (firstn size p), rs').

(** [df.sample(n=n, random_state=random_state)].  With an integer
    [random_state] a fresh generator is seeded and the global generator
    (the state threaded here) is left alone; with [None] the global
    generator is used and advanced. *)
Definition sample (n : nat) (random_state : option Z) (df : DataFrame F)
  (global : rng) : result (DataFrame F) * rng :=
  match random_state with
  | Some s =>
      let (locs, _) := choice (seeded s) (List.length df) n in
      (l <- locs ;; take df l, global)
  | None =>
      let (locs, global') := choice global (List.length df) n in
      (l <- locs ;; take df l, global')
  end.

(** [filtered_data.sample(n=2000, random_state=42)
     if len(filtered_data) > 2000 else filtered_data] *)
Definition scatter_data (df : DataFrame F) (global : rng)
  : result (DataFrame F) * rng :=
  if (2000 <? List.length df)%nat then sample 2000 (Some 42%Z) df global
  else (Ok df, global).

End Sampler.

(** What [RandomState.permutation] guarantees whatever the state: the
    result is a rearrangement of [arange(n)]. *)
Definition PermutationContract {rng : Type}
  (permutation : rng -> nat -> list nat * rng) : Prop :=
  forall rs n, Permutation (fst (permutation rs n)) (seq 0 n).

(** A generator for the examples: the state is a counter, and a
    permutation rotates [arange(n)] by the counter. *)
Definition rot_seeded (s : Z) : nat := Z.to_nat s.

Definition rot_permutation (rs : nat) (n : nat) : list nat * nat :=
  let k := (rs mod (S n))%nat in
  (skipn k (seq 0 n) ++ firstn k (seq 0 n), S rs).

(* ================================================================== *)
(** * The format of the artists column *)

(** The artists of a track are stored as the text of a list of names:
    each name between single quotes, the names separated by a comma and a
    space, the whole between brackets, as in ['A', 'B']. *)
Definition quoted (n : list ascii) : list ascii := quote :: n ++ [quote].

Fixpoint join (sep : list ascii) (parts : list (list ascii)) : list ascii :=
  match parts with
  | [] => []
  | [p] => p
  | p :: rest => p ++ sep ++ join sep rest
  end.

Definition comma_space : list ascii := list_ascii_of_string ", ".

Definition artists_text (names : list (list ascii)) : string :=
  string_of_list_ascii
    ("["%char :: join comma_space (map quoted names) ++ ["]"%char]).

(** The decades selected in both of two selections. *)
Definition selected_in_both (s1 s2 : list Z) : list Z :=
  filter (isin s2) s1.

(* ================================================================== *)
(** * Example tables *)

Set Warnings "-inexact-float".

Definition csv64 (title by_artists : string) (y pop : Z)
  (dance en val ac sp : float) : CsvRow float :=
  mkCsvRow title (Some by_artists) y pop dance en val ac sp
           (-9.5)%float 120%float.

(** Three rows of a CSV file: one of 1965, one of 1959, one of 2000. *)
Definition example_csv : list (CsvRow float) :=
  [ csv64 "Yesterday" "['The Beatles']" 1965 76 0.332 0.179 0.315 0.879 0.0326;
    csv64 "La Bamba" "['Ritchie Valens']" 1959 70 0.508 0.808 0.962 0.183 0.0318;
    csv64 "Yellow" "['Coldplay']" 2000 85 0.429 0.661 0.285 0.00239 0.0281 ]%float.

(** One row of the least int64 year. *)
Definition wrapped_csv : list (CsvRow float) :=
  [ csv64 "Z" "['Z']" (-9223372036854775808) 0 0.5 0.5 0.5 0.5 0.5 ]%float.

(** Four tracks of the 1960s with popularities 10, 90, 90 and 5. *)
Definition ties_table : DataFrame float :=
  map add_decade
    [ csv64 "A" "['A']" 1961 10 0.5 0.5 0.5 0.5 0.5;
      csv64 "B" "['B']" 1962 90 0.5 0.5 0.5 0.5 0.5;
      csv64 "C" "['C', 'D']" 1963 90 0.5 0.5 0.5 0.5 0.5;
      csv64 "E" "['E']" 1964 5 0.5 0.5 0.5 0.5 0.5 ]%float.

(** Two tracks whose five feature means are all 0.5. *)
Definition equal_means_table : DataFrame float :=
  map add_decade
    [ csv64 "A" "['A']" 1961 10 0.25 0.75 0.5 0.25 0.75;
      csv64 "B" "['B']" 1962 20 0.75 0.25 0.5 0.75 0.25 ]%float.

(** One track per table, so that the means are the features of the track. *)
Definition above_one_table : DataFrame float :=
  map add_decade
    [ csv64 "A" "['A']" 1961 10 0.819 0.341 0.963 0.732 0.415 ]%float.

Definition below_one_table : DataFrame float :=
  map add_decade
    [ csv64 "A" "['A']" 1961 10 0.279 0.211 0.0594 0.982 0.0366 ]%float.

Definition near_constant_table : DataFrame float :=
  map add_decade
    [ csv64 "A" "['A']" 1961 10 0.5 0.5 0.5 0.5 0.5000000000000001 ]%float.

(** One track whose features are 1e-40 and, for the energy, [10 * 2^-52]. *)
Definition boundary_table : DataFrame float :=
  map add_decade
    [ csv64 "A" "['A']" 1961 10 1e-40 0x1.4p-49 1e-40 1e-40 1e-40 ]%float.

(** Three tracks of 1961 with danceability 0.1, 0.2 and 0.3. *)
Definition tenths_table : DataFrame float :=
  map add_decade
    [ csv64 "A" "['A']" 1961 10 0.1 0.5 0.5 0.5 0.5;
      csv64 "B" "['B']" 1961 20 0.2 0.5 0.5 0.5 0.5;
      csv64 "C" "['C']" 1961 30 0.3 0.5 0.5 0.5 0.5 ]%float.


(** A table of 2001 rows. *)
Definition large_table : DataFrame float :=
  repeat (add_decade (csv64 "A" "['A']" 1961 10 0.5 0.5 0.5 0.5 0.5)) 2001.

(* ================================================================== *)
(** * Properties *)

Unset Implicit Arguments.

(** ** General list facts *)

Lemma Subsequence_refl {A : Type} (l : list A) : Subsequence l l.
Proof. induction l; constructor; assumption. Qed.

Lemma filter_Subsequence {A : Type} (p : A -> bool) (l : list A) :
  Subsequence (filter p l) l.
Proof.
  induction l as [|x l IH]; simpl.
  - constructor.
  - destruct (p x); constructor; assumption.
Qed.

Lemma filter_all {A : Type} (p : A -> bool) (l : list A) :
  (forall x, In x l -> p x = true) -> filter p l = l.
Proof.
  induction l as [|x l IH]; simpl; intros H; [reflexivity|].
  rewrite (H x (or_introl eq_refl)). f_equal. apply IH. intros; apply H; now right.
Qed.

Lemma filter_none {A : Type} (p : A -> bool) (l : list A) :
  (forall x, In x l -> p x = false) -> filter p l = [].
Proof.
  induction l as [|x l IH]; simpl; intros H; [reflexivity|].
  rewrite (H x (or_introl eq_refl)). apply IH. intros; apply H; now right.
Qed.

Lemma Forall2_map_self {A B : Type} (R : A -> B -> Prop) (f : A -> B) (l : list A) :
  (forall x, In x l -> R x (f x)) -> Forall2 R l (map f l).
Proof.
  induction l as [|x l IH]; simpl; intros H; constructor.
  - apply H. now left.
  - apply IH. intros y I. apply H. now right.
Qed.

(** ** Loader *)

Section LoaderFacts.
Context {F : Type}.
Open Scope Z_scope.

Lemma wrap64_id (z : Z) : int64 z -> wrap64 z = z.
Proof.
  unfold int64, int64_min, int64_max, wrap64. intros H.
  rewrite Z.mod_small by lia. lia.
Qed.

Lemma wrap64_below (z : Z) :
  int64_min - 18446744073709551616 <= z < int64_min ->
  wrap64 z = z + 18446744073709551616.
Proof.
  unfold int64_min, wrap64. intros H.
  replace (z + 9223372036854775808)
    with (z + 18446744073709551616 + 9223372036854775808
          + (-1) * 18446744073709551616) by lia.
  rewrite Z.mod_add by lia. rewrite Z.mod_small by lia. lia.
Qed.

Lemma floor_decade_bounds (y : Z) : (y / 10) * 10 <= y < (y / 10) * 10 + 10.
Proof.
  pose proof (Z.div_mod y 10 ltac:(lia)) as E.
  pose proof (Z.mod_pos_bound y 10 ltac:(lia)) as B.
  lia.
Qed.

(** From [first_exact_year] on the product fits and nothing wraps. *)
Lemma decade_of_exact (y : Z) :
  first_exact_year <= y <= int64_max -> decade_of y = (y / 10) * 10.
Proof.
  unfold first_exact_year, int64_max. intros H. unfold decade_of.
  apply wrap64_id. unfold int64, int64_min, int64_max.
  pose proof (floor_decade_bounds y) as B.
  assert (-922337203685477580 <= y / 10) by (apply Z.div_le_lower_bound; lia).
  lia.
Qed.

(** Below it the product is [-9223372036854775810], which wraps to
    [int64_max - 1]. *)
Lemma decade_of_wrapped (y : Z) :
  int64_min <= y < first_exact_year -> decade_of y = 9223372036854775806.
Proof.
  unfold int64_min, first_exact_year. intros H. unfold decade_of.
  assert (E : y / 10 = -922337203685477581).
  { symmetry. apply (Z.div_unique y 10 _ (y + 9223372036854775810)); lia. }
  rewrite E. reflexivity.
Qed.

Lemma decade_of_multiple (y : Z) :
  first_exact_year <= y <= int64_max -> decade_of y mod 10 = 0.
Proof. intros H. rewrite (decade_of_exact y H). apply Z.mod_mul. lia. Qed.

Lemma decade_of_bounds (y : Z) :
  first_exact_year <= y <= int64_max -> decade_of y <= y < decade_of y + 10.
Proof. intros H. rewrite (decade_of_exact y H). apply floor_decade_bounds. Qed.

(** The test [decade >= 1960] on an int64 year: passed by the years from
    1960 on and, through the wrapped product, by the eight least years. *)
Lemma decade_ge_1960_iff (y : Z) :
  int64 y -> (1960 <= decade_of y <-> 1960 <= y \/ y < first_exact_year).
Proof.
  unfold int64. intros [L U].
  destruct (Z_lt_le_dec y first_exact_year) as [W | E].
  - rewrite (decade_of_wrapped y (conj L W)). split; [now right | lia].
  - assert (H : first_exact_year <= y <= int64_max) by lia.
    pose proof (decade_of_bounds y H) as B.
    rewrite (decade_of_exact y H) in *.
    unfold first_exact_year in *. split.
    + intros G. left. lia.
    + intros [G | G]; [|lia].
      assert (196 <= y / 10) by (apply Z.div_le_lower_bound; lia).
      lia.
Qed.

Lemma in_load_data (csv : list (CsvRow F)) (r : Track F) :
  In r (load_data csv) <->
  exists raw, In raw csv /\ r = add_decade raw /\
              1960 <= decade_of (csv_year raw).
Proof.
  unfold load_data. rewrite filter_In, in_map_iff. split.
  - intros [[raw [E I]] H]. exists raw. subst r. simpl in H.
    apply Z.leb_le in H. auto.
  - intros [raw [I [E H]]]. subst r. split; [exists raw; auto|].
    simpl. now apply Z.leb_le.
Qed.

End LoaderFacts.

(** C7, as the code has it.  The years are int64 and so is the product
    [(year // 10) * 10].  Every record of the working table has a decade
    of at least 1960, the int64 product of [floor(year/10)] and 10.  For a
    year from [first_exact_year] on that product is [floor(year/10)*10], a
    multiple of 10, and the record is in the table because its year is at
    least 1960.  For the eight least int64 years the product wraps to
    [int64_max - 1], which passes the test: such a record is kept, with a
    decade that is not a multiple of 10.  A CSV row is in the working
    table exactly when its year is at least 1960 or below
    [first_exact_year]; a row of 1959 is left out; 1965 gives decade 1960
    and 2000 gives decade 2000. *)
Theorem load_data_decade :
  forall (F : Type) (csv : list (CsvRow F)),
    (forall raw, In raw csv -> int64 (csv_year raw)) ->
    forall r : Track F,
      In r (load_data csv) ->
      (1960 <= decade r /\
       decade r = wrap64 ((year r / 10) * 10) /\
       (first_exact_year <= year r ->
        decade r = (year r / 10) * 10 /\
        decade r mod 10 = 0 /\
        1960 <= year r) /\
       (year r < first_exact_year -> decade r = 9223372036854775806) /\
       year r <> 1959 /\
       (forall raw, In raw csv ->
          (In (add_decade raw) (load_data csv) <->
           1960 <= csv_year raw \/ csv_year raw < first_exact_year)) /\
       decade_of 1965 = 1960 /\
       decade_of 2000 = 2000 /\
       decade_of 1959 = 1950)%Z.
Proof.
  intros F csv R r H.
  destruct (proj1 (in_load_data csv r) H) as [raw [I [E Y]]].
  subst r. simpl.
  pose proof (R raw I) as B.
  pose proof (proj1 (decade_ge_1960_iff _ B) Y) as Y'.
  split; [exact Y|]. split; [reflexivity|].
  split; [|split; [|split; [|split; [|repeat split; reflexivity]]]].
  - intros L.
    assert (X : (first_exact_year <= csv_year raw <= int64_max)%Z)
      by (split; [exact L | apply B]).
    split; [now apply decade_of_exact|].
    split; [now apply decade_of_multiple|].
    unfold first_exact_year in *. lia.
  - intros L. apply decade_of_wrapped. split; [apply B | exact L].
  - unfold first_exact_year, int64, int64_min in *. lia.
  - intros raw0 I0. rewrite <- (decade_ge_1960_iff _ (R raw0 I0)). split.
    + intros H'. apply in_load_data in H'.
      destruct H' as [raw' [_ [E' G']]].
      assert (csv_year raw0 = csv_year raw') as ->; [|assumption].
      change (year (add_decade raw0) = year (add_decade raw')). now rewrite E'.
    + intros G'. apply in_load_data. exists raw0. auto.
Qed.

(** ** Filter *)

Section FilterFacts.
Context {F : Type}.
Open Scope Z_scope.

Lemma isin_In (values : list Z) (x : Z) : isin values x = true <-> In x values.
Proof.
  unfold isin. rewrite existsb_exists. split.
  - intros [y [I E]]. apply Z.eqb_eq in E. now subst.
  - intros I. exists x. split; [assumption | apply Z.eqb_refl].
Qed.

Lemma isin_not_In (values : list Z) (x : Z) :
  isin values x = false <-> ~ In x values.
Proof.
  rewrite <- isin_In. destruct (isin values x); split; congruence.
Qed.

Lemma in_unique (l : list Z) (x : Z) : In x (unique l) <-> In x l.
Proof.
  induction l as [|y l IH]; simpl; [tauto|].
  rewrite filter_In, IH. split.
  - intros [H | [H _]]; auto.
  - intros [H | H]; [now left|].
    destruct (Z.eq_dec y x) as [E | N]; [now left | right].
    split; [assumption|]. apply negb_true_iff, Z.eqb_neq. congruence.
Qed.

Lemma in_insert_sorted (x y : Z) (l : list Z) :
  In y (insert_sorted x l) <-> y = x \/ In y l.
Proof.
  induction l as [|z l IH]; simpl.
  - intuition.
  - destruct (x <=? z); simpl; rewrite ?IH; intuition.
Qed.

Lemma in_sorted (l : list Z) (x : Z) : In x (sorted l) <-> In x l.
Proof.
  induction l as [|y l IH]; simpl; [tauto|].
  rewrite in_insert_sorted, IH. intuition.
Qed.

Lemma in_decade_options (data : DataFrame F) (d : Z) :
  In d (decade_options data) <-> exists r, In r data /\ decade r = d.
Proof.
  unfold decade_options. rewrite in_sorted, in_unique, in_map_iff.
  split; intros [r [A B]]; exists r; auto.
Qed.

Lemma filtered_data_app (d1 d2 : DataFrame F) (sel : list Z) :
  filtered_data (d1 ++ d2) sel = filtered_data d1 sel ++ filtered_data d2 sel.
Proof. apply filter_app. Qed.

End FilterFacts.

(** C5. [filtered_data] keeps exactly the rows whose decade is selected, in
    the order of the source table: it is a subsequence of the table, it
    distributes over concatenation, and it keeps or drops each single row
    by the membership of its decade.  With no decade selected the result
    is empty; with all the decades of the table selected the table comes
    back unchanged. *)
Theorem filtered_data_exact :
  forall (F : Type) (data : DataFrame F) (selected_decades : list Z),
    (forall r : Track F, In r (filtered_data data selected_decades) <->
               In r data /\ In (decade r) selected_decades) /\
    Subsequence (filtered_data data selected_decades) data /\
    (forall d1 d2, data = d1 ++ d2 ->
       filtered_data data selected_decades =
       filtered_data d1 selected_decades ++ filtered_data d2 selected_decades) /\
    (forall r : Track F, filtered_data [r] selected_decades =
               if isin selected_decades (decade r) then [r] else []) /\
    (forall r : Track F, isin selected_decades (decade r) = true <->
               In (decade r) selected_decades) /\
    filtered_data data [] = [] /\
    filtered_data data (decade_options data) = data.
Proof.
  intros F data sel.
  split; [|split; [|split; [|split; [|split; [|split]]]]].
  - intros r. unfold filtered_data. rewrite filter_In, isin_In. tauto.
  - apply filter_Subsequence.
  - intros d1 d2 ->. apply filtered_data_app.
  - intros r. unfold filtered_data. simpl. now destruct (isin sel (decade r)).
  - intros r. apply isin_In.
  - unfold filtered_data. apply filter_none. reflexivity.
  - unfold filtered_data. apply filter_all. intros r I.
    apply isin_In, in_decade_options. now exists r.
Qed.

(** ** Artist string cleanup *)

Section StringFacts.
Variable chars : list ascii.

Let stripped (c : ascii) : Prop := in_chars chars c = true.

Lemma lstrip_split (s : list ascii) :
  exists pre, s = pre ++ lstrip chars s /\ Forall stripped pre.
Proof.
  induction s as [|c s [pre [E P]]]; simpl.
  - exists []. split; [reflexivity | constructor].
  - destruct (in_chars chars c) eqn:C.
    + exists (c :: pre). split; [simpl; now f_equal | now constructor].
    + exists []. split; [reflexivity | constructor].
Qed.

Lemma lstrip_head (s : list ascii) (c : ascii) :
  hd_error (lstrip chars s) = Some c -> in_chars chars c = false.
Proof.
  induction s as [|d s IH]; simpl; [discriminate|].
  destruct (in_chars chars d) eqn:D; [assumption|].
  simpl. intros [= <-]. assumption.
Qed.

Lemma rstrip_split (s : list ascii) :
  exists post, s = rstrip chars s ++ post /\ Forall stripped post.
Proof.
  unfold rstrip. destruct (lstrip_split (rev s)) as [pre [E P]].
  exists (rev pre). split.
  - rewrite <- rev_app_distr, <- E. symmetry. apply rev_involutive.
  - apply Forall_rev. assumption.
Qed.

Lemma rstrip_last (s : list ascii) (c : ascii) :
  hd_error (rev (rstrip chars s)) = Some c -> in_chars chars c = false.
Proof. unfold rstrip. rewrite rev_involutive. apply lstrip_head. Qed.

Lemma rstrip_head (s : list ascii) (c : ascii) :
  hd_error (rstrip chars s) = Some c -> hd_error s = Some c.
Proof.
  destruct (rstrip_split s) as [post [E _]].
  destruct (rstrip chars s) as [|d t]; simpl; [discriminate|].
  intros [= ->]. rewrite E. reflexivity.
Qed.

Lemma strip_split (s : list ascii) :
  exists pre post,
    s = pre ++ strip chars s ++ post /\
    Forall stripped pre /\ Forall stripped post /\
    (forall c, hd_error (strip chars s) = Some c -> in_chars chars c = false) /\
    (forall c, hd_error (rev (strip chars s)) = Some c -> in_chars chars c = false).
Proof.
  destruct (lstrip_split s) as [pre [E P]].
  destruct (rstrip_split (lstrip chars s)) as [post [E' P']].
  exists pre, post. unfold strip.
  split; [rewrite <- E'; exact E|].
  split; [assumption|]. split; [assumption|]. split.
  - intros c H. apply rstrip_head in H. now apply lstrip_head in H.
  - intros c. apply rstrip_last.
Qed.

End StringFacts.

Lemma in_brackets (c : ascii) :
  in_chars brackets c = true <-> c = "["%char \/ c = "]"%char.
Proof.
  unfold in_chars, brackets. simpl. rewrite !orb_true_iff, !Ascii.eqb_eq.
  intuition discriminate.
Qed.

Lemma replace_by_empty_chars (old : ascii) (s : list ascii) (c : ascii) :
  In c (replace_by_empty old s) <-> In c s /\ c <> old.
Proof.
  unfold replace_by_empty. rewrite filter_In, negb_true_iff, Ascii.eqb_neq. tauto.
Qed.

Lemma lstrip_fixed (chars s : list ascii) :
  (forall c, hd_error s = Some c -> in_chars chars c = false) ->
  lstrip chars s = s.
Proof.
  destruct s as [|c s]; simpl; intros H; [reflexivity|].
  now rewrite (H c eq_refl).
Qed.

Lemma strip_bracketed (core : list ascii) :
  (forall c, hd_error core = Some c -> in_chars brackets c = false) ->
  (forall c, hd_error (rev core) = Some c -> in_chars brackets c = false) ->
  strip brackets ("["%char :: core ++ ["]"%char]) = core.
Proof.
  intros H T. unfold strip.
  change (lstrip brackets ("["%char :: core ++ ["]"%char]))
    with (lstrip brackets (core ++ ["]"%char])).
  destruct core as [|c core]; [reflexivity|].
  rewrite lstrip_fixed by (simpl; intros d [= <-]; now apply H).
  unfold rstrip. rewrite rev_app_distr.
  change (lstrip brackets (rev ["]"%char] ++ rev (c :: core)))
    with (lstrip brackets (rev (c :: core))).
  rewrite lstrip_fixed by exact T. apply rev_involutive.
Qed.

Lemma clean_bracketed (core : list ascii) :
  (forall c, hd_error core = Some c -> in_chars brackets c = false) ->
  (forall c, hd_error (rev core) = Some c -> in_chars brackets c = false) ->
  clean_artists (string_of_list_ascii ("["%char :: core ++ ["]"%char]))
  = string_of_list_ascii (replace_by_empty quote core) /\
  spec_clean_artists (string_of_list_ascii ("["%char :: core ++ ["]"%char]))
  = string_of_list_ascii (replace_by_empty quote core).
Proof.
  intros H T. unfold clean_artists, spec_clean_artists.
  rewrite list_ascii_of_string_of_list_ascii. split.
  - now rewrite strip_bracketed.
  - f_equal. f_equal. unfold spec_strip_leading, spec_strip_trailing.
    cbn [Ascii.eqb Bool.eqb]. rewrite rev_app_distr. simpl. apply rev_involutive.
Qed.

(** C4, as the code has it.  [strip("[]")] removes every leading and every
    trailing character that is a bracket of either kind, a whole run of
    them and not one leading "[" and one trailing "]"; nothing else is
    trimmed, so what is left neither starts nor ends with a bracket.  Then
    every single quote is deleted and every other character is kept in
    place.  On a string made of one "[", a text without a bracket at its
    ends, and one "]", this is what the specification describes.  The two
    examples of the specification come out as stated. *)
Theorem clean_artists_strips_bracket_runs :
  forall x : string,
    (exists pre core post,
       list_ascii_of_string x = pre ++ core ++ post /\
       Forall (fun c => c = "["%char \/ c = "]"%char) pre /\
       Forall (fun c => c = "["%char \/ c = "]"%char) post /\
       (forall c, hd_error core = Some c -> c <> "["%char /\ c <> "]"%char) /\
       (forall c, hd_error (rev core) = Some c -> c <> "["%char /\ c <> "]"%char) /\
       clean_artists x =
         string_of_list_ascii (filter (fun c => negb (Ascii.eqb c "'"%char)) core)) /\
    (forall c, In c (list_ascii_of_string (clean_artists x)) -> c <> "'"%char) /\
    (forall core : list ascii,
       (forall c, hd_error core = Some c -> in_chars brackets c = false) ->
       (forall c, hd_error (rev core) = Some c -> in_chars brackets c = false) ->
       clean_artists (string_of_list_ascii ("["%char :: core ++ ["]"%char]))
       = string_of_list_ascii (replace_by_empty quote core) /\
       spec_clean_artists (string_of_list_ascii ("["%char :: core ++ ["]"%char]))
       = string_of_list_ascii (replace_by_empty quote core)) /\
    clean_artists "['The Beatles']" = "The Beatles"%string /\
    clean_artists "['A', 'B']" = "A, B"%string.
Proof.
  intros x. split; [|split; [|split; [apply clean_bracketed | split; reflexivity]]].
  - destruct (strip_split brackets (list_ascii_of_string x))
      as [pre [post [E [P [P' [H T]]]]]].
    exists pre, (strip brackets (list_ascii_of_string x)), post.
    assert (N : forall c, in_chars brackets c = false ->
                          c <> "["%char /\ c <> "]"%char).
    { intros c C. split; intros ->; discriminate C. }
    split; [exact E|].
    split; [eapply Forall_impl; [|exact P]; intros c; apply in_brackets|].
    split; [eapply Forall_impl; [|exact P']; intros c; apply in_brackets|].
    split; [intros c Hc; apply N, H, Hc|].
    split; [intros c Hc; apply N, T, Hc|].
    reflexivity.
  - intros c. unfold clean_artists. rewrite list_ascii_of_string_of_list_ascii.
    intros I. apply replace_by_empty_chars in I. apply I.
Qed.

(** C4, as the specification words it, fails: on a string with two
    brackets at an end the code removes both, and it removes a bracket of
    the other kind at either end too. *)
Lemma clean_artists_not_one_bracket :
  clean_artists "[['A', 'B']]" = "A, B"%string /\
  spec_clean_artists "[['A', 'B']]" = "[A, B]"%string /\
  clean_artists "]A[" = "A"%string /\
  spec_clean_artists "]A[" = "]A["%string /\
  ~ (forall x : string, clean_artists x = spec_clean_artists x).
Proof.
  repeat split; try reflexivity.
  intros H. specialize (H "]A["%string). discriminate H.
Qed.

(** ** Trend aggregator *)

Section TrendFacts.
Context {F : Type} {AF : Arith F}.
Open Scope Z_scope.

Lemma assoc_none_below (y : Z) (gs : @Groups F) :
  Forall (fun k => y < k) (keys_of gs) -> assoc y gs = None.
Proof.
  induction gs as [|[k g] gs IH]; simpl; intros H; [reflexivity|].
  inversion H; subst. destruct (Z.eqb_spec k y); [lia | auto].
Qed.

Lemma in_keys_upsert (r : Track F) (gs : @Groups F) (y : Z) :
  In y (keys_of (upsert r gs)) <-> y = year r \/ In y (keys_of gs).
Proof.
  induction gs as [|[k g] gs IH]; simpl.
  - intuition.
  - destruct (Z.ltb_spec (year r) k); simpl; [intuition|].
    destruct (Z.eqb_spec (year r) k); simpl.
    + subst. intuition.
    + fold (keys_of (upsert r gs)). rewrite IH. unfold keys_of. intuition.
Qed.

Lemma upsert_sorted (r : Track F) (gs : @Groups F) :
  StronglySorted Z.lt (keys_of gs) ->
  StronglySorted Z.lt (keys_of (upsert r gs)).
Proof.
  induction gs as [|[k g] gs IH]; simpl; intros S.
  - repeat constructor.
  - inversion S as [|? ? S' Hk]; subst.
    destruct (Z.ltb_spec (year r) k); simpl.
    + constructor; [assumption|]. constructor; [assumption|].
      eapply Forall_impl; [|exact Hk]. simpl. intros; lia.
    + destruct (Z.eqb_spec (year r) k); simpl.
      * constructor; assumption.
      * constructor; [apply IH; assumption|].
        apply Forall_forall. intros y Hy.
        apply in_keys_upsert in Hy. destruct Hy as [-> | Hy]; [lia|].
        rewrite Forall_forall in Hk. now apply Hk.
Qed.

Lemma acc_of_upsert (r : Track F) (gs : @Groups F) (y : Z) :
  StronglySorted Z.lt (keys_of gs) ->
  acc_of y (upsert r gs) =
  if year r =? y then group_add (acc_of y gs) r else acc_of y gs.
Proof.
  unfold acc_of.
  induction gs as [|[k g] gs IH]; simpl; intros S.
  - destruct (Z.eqb_spec (year r) y); reflexivity.
  - inversion S as [|? ? S' Hk]; subst.
    destruct (Z.ltb_spec (year r) k); simpl.
    + destruct (Z.eqb_spec (year r) y) as [E | N].
      * destruct (Z.eqb_spec k y); [lia|].
        rewrite assoc_none_below; [reflexivity|].
        eapply Forall_impl; [|exact Hk]. simpl. intros; lia.
      * reflexivity.
    + destruct (Z.eqb_spec (year r) k) as [E | N]; simpl.
      * subst k. destruct (Z.eqb_spec (year r) y); reflexivity.
      * destruct (Z.eqb_spec k y) as [E' | N'].
        -- subst k. destruct (Z.eqb_spec (year r) y); [lia | reflexivity].
        -- apply IH. assumption.
Qed.

Lemma groupby_fold (df : DataFrame F) (gs : @Groups F) :
  StronglySorted Z.lt (keys_of gs) ->
  let gs' := fold_left (fun gs r => upsert r gs) df gs in
  StronglySorted Z.lt (keys_of gs') /\
  (forall y, In y (keys_of gs') <->
             In y (keys_of gs) \/ exists r, In r df /\ year r = y) /\
  (forall y, acc_of y gs' = fold_left group_add (rows_of_year df y) (acc_of y gs)).
Proof.
  revert gs. induction df as [|r df IH]; simpl; intros gs S.
  - split; [assumption|]. split; [|reflexivity].
    intros y. split; [auto|]. intros [H | [r [[] _]]]. assumption.
  - destruct (IH (upsert r gs) (@upsert_sorted r gs S)) as [S' [K A]].
    split; [assumption|]. split.
    + intros y. rewrite K, in_keys_upsert. split.
      * intros [[-> | H] | [r' [I E]]]; eauto.
      * intros [H | [r' [[-> | I] E]]]; eauto.
    + intros y. rewrite A, acc_of_upsert by assumption.
      destruct (year r =? y); reflexivity.
Qed.

Lemma in_assoc (gs : @Groups F) (y : Z) (g : @GroupAcc F) :
  StronglySorted Z.lt (keys_of gs) -> In (y, g) gs -> assoc y gs = Some g.
Proof.
  induction gs as [|[k g'] gs IH]; simpl; intros S I; [contradiction|].
  inversion S as [|? ? S' Hk]; subst.
  destruct I as [[= -> ->] | I].
  - now rewrite Z.eqb_refl.
  - destruct (Z.eqb_spec k y) as [-> | N]; [|auto].
    rewrite Forall_forall in Hk.
    assert (y < y); [|lia]. apply Hk. apply in_map_iff. now exists (y, g).
Qed.

Lemma fold_group_add (rows : DataFrame F) (g : @GroupAcc F) :
  let g' := fold_left group_add rows g in
  g_danceability g' = fold_left col_add (map (@danceability F) rows) (g_danceability g) /\
  g_energy g' = fold_left col_add (map (@energy F) rows) (g_energy g) /\
  g_valence g' = fold_left col_add (map (@valence F) rows) (g_valence g) /\
  g_acousticness g' = fold_left col_add (map (@acousticness F) rows) (g_acousticness g).
Proof.
  revert g. induction rows as [|r rows IH]; simpl; intros g; [auto|].
  destruct (IH (group_add g r)) as [A [B [C D]]]. simpl in *. auto.
Qed.

Lemma groupby_year_spec (df : DataFrame F) :
  StronglySorted Z.lt (keys_of (groupby_year df)) /\
  (forall y, In y (keys_of (groupby_year df)) <-> exists r, In r df /\ year r = y) /\
  (forall y g, In (y, g) (groupby_year df) ->
               g = fold_left group_add (rows_of_year df y) group_init).
Proof.
  destruct (@groupby_fold df [] ltac:(constructor)) as [S [K A]].
  fold (groupby_year df) in S, K, A.
  split; [assumption|]. split.
  - intros y. rewrite K. simpl. intuition.
  - intros y g I. specialize (A y). unfold acc_of in A.
    rewrite (@in_assoc _ y g S I) in A. simpl in A. exact A.
Qed.

Lemma yearly_years (df : DataFrame F) :
  map (@yr_year F) (yearly_avg_features df) = keys_of (groupby_year df).
Proof.
  unfold yearly_avg_features, keys_of. rewrite map_map. reflexivity.
Qed.

End TrendFacts.

(** C8, as the code has it.  [yearly_avg_features] has one row per
    distinct year of its input: the years of its rows ascend strictly (so
    none is repeated), a year occurs exactly when some input row has it (a
    year without rows is absent), and the row of a year holds, for each of
    the four features, the mean [groupby.mean] computes over the rows of
    that year: the compensated sum of the values present, taken in row
    order, divided by their number.  In binary64 that is the arithmetic
    mean up to rounding only. *)
Theorem yearly_avg_features_rows :
  forall (F : Type) (AF : Arith F) (df : DataFrame F),
    StronglySorted Z.lt (map (@yr_year F) (yearly_avg_features df)) /\
    (forall y, In y (map (@yr_year F) (yearly_avg_features df)) <->
               exists r, In r df /\ year r = y) /\
    (forall row, In row (yearly_avg_features df) ->
       let rows := rows_of_year df (yr_year row) in
       rows <> [] /\
       yr_danceability row = groupby_mean (map (@danceability F) rows) /\
       yr_energy row = groupby_mean (map (@energy F) rows) /\
       yr_valence row = groupby_mean (map (@valence F) rows) /\
       yr_acousticness row = groupby_mean (map (@acousticness F) rows)).
Proof.
  intros F AF df.
  destruct (groupby_year_spec df) as [S [K A]].
  rewrite yearly_years.
  split; [assumption|]. split; [assumption|].
  intros row I. unfold yearly_avg_features in I.
  apply in_map_iff in I. destruct I as [[y g] [<- I]]. simpl.
  split.
  - assert (Hy : In y (keys_of (groupby_year df))).
    { apply in_map_iff. now exists (y, g). }
    apply K in Hy. destruct Hy as [r [Ir Er]].
    intros E. assert (Hr : In r (rows_of_year df y)).
    { apply filter_In. split; [assumption | now apply Z.eqb_eq]. }
    rewrite E in Hr. contradiction.
  - rewrite (A y g I).
    destruct (fold_group_add (rows_of_year df y) group_init) as [a [b [c d]]].
    unfold groupby_mean. simpl in *. rewrite a, b, c, d. auto.
Qed.

(** ** Facts of binary64 arithmetic

    Derived from the specification of the primitive operations
    ([Prim2SF] and the [spec_float] operations of the standard library). *)

Section Binary64Facts.
Open Scope float_scope.

Lemma Prim2SF_zero : Prim2SF 0 = S754_zero false.
Proof. reflexivity. Qed.

Lemma Prim2SF_one : Prim2SF 1 = S754_finite false 4503599627370496 (-52).
Proof. reflexivity. Qed.

Lemma sub_diag64 (x : float) : finite64 x -> x - x = 0.
Proof.
  unfold finite64. intros H. apply Prim2SF_inj. rewrite sub_spec, Prim2SF_zero.
  destruct (Prim2SF x) as [s| | |s m e]; try contradiction.
  - now destruct s.
  - unfold SF64sub, SFsub. rewrite Z.sub_diag. reflexivity.
Qed.

Lemma add_zero_sub64 (y : float) : finite64 y -> y + (0 - y) = 0.
Proof.
  unfold finite64. intros H. apply Prim2SF_inj.
  rewrite add_spec, sub_spec, Prim2SF_zero.
  destruct (Prim2SF y) as [s| | |s m e]; try contradiction.
  - now destruct s.
  - unfold SF64sub, SFsub, SF64add, SFadd.
    destruct s; simpl negb; unfold cond_Zopp.
    + rewrite Z.add_opp_diag_l. reflexivity.
    + rewrite Z.add_opp_diag_r. reflexivity.
Qed.

Lemma digits2_shift52 (m : positive) :
  Zpos (digits2_pos (4503599627370496 * m)) = (Zpos (digits2_pos m) + 52)%Z.
Proof.
  change (4503599627370496 * m)%positive with
    (m~0~0~0~0~0~0~0~0~0~0~0~0~0~0~0~0~0~0~0~0~0~0~0~0~0~0~0~0~0~0~0~0~0~0~0~0~0~0~0~0~0~0~0~0~0~0~0~0~0~0~0~0)%positive.
  cbn [digits2_pos]. lia.
Qed.

Lemma shr52 (m : positive) :
  iter_pos shr_1 52 (Build_shr_record (Zpos (4503599627370496 * m)) false false)
  = Build_shr_record (Zpos m) false false.
Proof.
  change (4503599627370496 * m)%positive with
    (m~0~0~0~0~0~0~0~0~0~0~0~0~0~0~0~0~0~0~0~0~0~0~0~0~0~0~0~0~0~0~0~0~0~0~0~0~0~0~0~0~0~0~0~0~0~0~0~0~0~0~0~0)%positive.
  reflexivity.
Qed.

Lemma shr_fexp_scaled (m : positive) (e : Z) :
  fexp prec emax (Z.pos (digits2_pos m) + e) = e ->
  shr_fexp prec emax (Zpos (4503599627370496 * m)) (e + -52) loc_Exact
  = (Build_shr_record (Zpos m) false false, e).
Proof.
  intros C. unfold shr_fexp, Zdigits2. rewrite digits2_shift52.
  replace (Z.pos (digits2_pos m) + 52 + (e + -52))%Z
    with (Z.pos (digits2_pos m) + e)%Z by lia.
  rewrite C.
  replace (e - (e + -52))%Z with 52%Z by lia.
  unfold shr. cbn [shr_record_of_loc]. rewrite shr52.
  f_equal. lia.
Qed.

Lemma shr_fexp_canonical (m : positive) (e : Z) :
  fexp prec emax (Z.pos (digits2_pos m) + e) = e ->
  shr_fexp prec emax (Zpos m) e loc_Exact
  = (Build_shr_record (Zpos m) false false, e).
Proof.
  intros C. unfold shr_fexp, Zdigits2. rewrite C, Z.sub_diag. reflexivity.
Qed.

Lemma SFmul_one (s : bool) (m : positive) (e : Z) :
  bounded prec emax m e = true ->
  SF64mul (S754_finite s m e) (S754_finite false 4503599627370496 (-52))
  = S754_finite s m e.
Proof.
  unfold bounded, canonical_mantissa. intros B.
  apply andb_prop in B. destruct B as [C L].
  apply Z.eqb_eq in C.
  unfold SF64mul, SFmul, binary_round_aux.
  rewrite Pos.mul_comm, xorb_false_r.
  rewrite (@shr_fexp_scaled m e C).
  cbn [shr_m loc_of_shr_record round_nearest_even].
  rewrite (@shr_fexp_canonical m e C).
  cbn [shr_m]. rewrite L. reflexivity.
Qed.

Lemma mul_one64 (x : float) : finite64 x -> x * 1 = x.
Proof.
  unfold finite64. intros H. apply Prim2SF_inj.
  rewrite mul_spec, Prim2SF_one.
  pose proof (Prim2SF_valid x) as V.
  destruct (Prim2SF x) as [s| | |s m e]; try contradiction.
  - simpl. now rewrite xorb_false_r.
  - apply SFmul_one. exact V.
Qed.

Lemma SFeqb_finite_eq (s1 s2 : bool) (m1 m2 : positive) (e1 e2 : Z) :
  SFeqb (S754_finite s1 m1 e1) (S754_finite s2 m2 e2) = true ->
  S754_finite s1 m1 e1 = S754_finite s2 m2 e2.
Proof.
  unfold SFeqb, SFcompare.
  destruct s1, s2; try discriminate;
    destruct (Z.compare_spec e1 e2) as [E | L | G]; try discriminate;
    fold (Pos.compare m1 m2);
    destruct (Pos.compare_spec m1 m2) as [M | L | G]; try discriminate;
    intros _; now subst.
Qed.

Lemma eqb64_cases (x y : float) :
  (x =? y) = true ->
  x = y \/ ((x = 0 \/ x = -0) /\ (y = 0 \/ y = -0)).
Proof.
  rewrite eqb_spec. intros H.
  assert (Z : forall z s, Prim2SF z = S754_zero s -> z = 0 \/ z = -0).
  { intros z s E. rewrite <- (SF2Prim_Prim2SF z), E. destruct s; simpl; auto. }
  destruct (Prim2SF x) as [sx| sx | |sx mx ex] eqn:Ex;
    destruct (Prim2SF y) as [sy| sy | |sy my ey] eqn:Ey;
    try (right; split; eauto; fail);
    try (left; apply Prim2SF_inj; rewrite Ex, Ey; now apply SFeqb_finite_eq);
    unfold SFeqb, SFcompare in H;
    try discriminate H;
    try (destruct sx; discriminate H);
    try (destruct sy; discriminate H).
  left. apply Prim2SF_inj. rewrite Ex, Ey.
  destruct sx, sy; try discriminate H; reflexivity.
Qed.

Lemma finite64_iff (x : float) :
  finite64 x <-> is_nan x = false /\ is_infinity x = false.
Proof.
  unfold finite64, Prim2SF.
  destruct (is_nan x); [intuition discriminate|].
  destruct (is_zero x) eqn:Z.
  - split; [|trivial]. intros _. split; [reflexivity|].
    unfold is_zero in Z. unfold is_infinity.
    rewrite eqb_spec in *. rewrite abs_spec.
    change (Prim2SF zero) with (S754_zero false) in Z.
    change (Prim2SF infinity) with (S754_infinity false).
    destruct (Prim2SF x) as [s| | |s m e]; try discriminate; try reflexivity.
    cbv in Z. destruct s; discriminate.
  - destruct (is_infinity x); [intuition discriminate|].
    destruct (Z.frexp x) as [r ex].
    destruct (shr_fexp prec emax _ _ _) as [sh e'].
    destruct (shr_m sh); intuition.
Qed.

End Binary64Facts.

Section Binary64Nan.
Open Scope float_scope.

Lemma is_nan_Prim2SF (x : float) : is_nan x = true <-> Prim2SF x = S754_nan.
Proof.
  split.
  - intros H. unfold Prim2SF. now rewrite H.
  - intros H. unfold is_nan. rewrite eqb_spec, H. reflexivity.
Qed.

Lemma is_nan_eq (x : float) : is_nan x = true -> x = nan.
Proof.
  intros H. apply Prim2SF_inj. apply is_nan_Prim2SF in H. rewrite H. reflexivity.
Qed.

Lemma nan_mul (y : float) : nan * y = nan.
Proof.
  apply Prim2SF_inj. rewrite mul_spec. reflexivity.
Qed.

Lemma nan_add (y : float) : nan + y = nan.
Proof.
  apply Prim2SF_inj. rewrite add_spec. reflexivity.
Qed.

End Binary64Nan.


Section Binary64Single.
Open Scope float_scope.

Lemma shr_fexp_doubled (m : positive) (e : Z) :
  fexp prec emax (Z.pos (digits2_pos m) + e) = e ->
  shr_fexp prec emax (Zpos m~0) (e - 1) loc_Exact
  = (Build_shr_record (Zpos m) false false, e).
Proof.
  intros C. unfold shr_fexp, Zdigits2. cbn [digits2_pos].
  replace (Z.pos (Pos.succ (digits2_pos m)) + (e - 1))%Z
    with (Z.pos (digits2_pos m) + e)%Z by lia.
  rewrite C.
  replace (e - (e - 1))%Z with 1%Z by lia.
  unfold shr. cbn [shr_record_of_loc iter_pos shr_1 orb]. f_equal. lia.
Qed.

Lemma div_eucl_exact (q b : Z) : (0 < b)%Z -> Z.div_eucl (q * b) b = (q, 0%Z).
Proof.
  intros B.
  assert (E : Z.div_eucl (q * b) b = ((q * b) / b, (q * b) mod b)%Z).
  { unfold Z.div, Z.modulo. now destruct (Z.div_eucl (q * b) b). }
  rewrite E, Z.div_mul, Z.mod_mul by lia. reflexivity.
Qed.

Lemma SFdiv_one (s : bool) (m : positive) (e : Z) :
  bounded prec emax m e = true ->
  SF64div (S754_finite s m e) (S754_finite false 4503599627370496 (-52))
  = S754_finite s m e.
Proof.
  unfold bounded, canonical_mantissa. intros B.
  apply andb_prop in B. destruct B as [C L].
  apply Z.eqb_eq in C.
  unfold SF64div, SFdiv, SFdiv_core_binary. rewrite xorb_false_r.
  change (Zdigits2 (Zpos 4503599627370496)) with 53%Z.
  change (Zdigits2 (Zpos m)) with (Zpos (digits2_pos m)).
  assert (K : fexp prec emax (Z.pos (digits2_pos m) + e - (53 + -52)) = (e - 1)%Z
              \/ fexp prec emax (Z.pos (digits2_pos m) + e - (53 + -52)) = e).
  { revert C. unfold fexp, emin, prec, emax. lia. }
  assert (P52 : (0 < 4503599627370496)%Z) by reflexivity.
  destruct K as [K | K]; rewrite K.
  - replace (Z.min (e - 1) (e - -52)) with (e - 1)%Z by lia.
    replace (e - -52 - (e - 1))%Z with 53%Z by lia.
    replace (Z.shiftl (Z.pos m) 53) with (Zpos m~0 * 4503599627370496)%Z
      by (rewrite Z.shiftl_mul_pow2 by lia; change (2 ^ 53)%Z with 9007199254740992%Z; lia).
    rewrite (div_eucl_exact (Zpos m~0) 4503599627370496 P52).
    change (new_location 4503599627370496 0) with loc_Exact.
    unfold binary_round_aux.
    rewrite (shr_fexp_doubled m e C).
    cbn [shr_m loc_of_shr_record round_nearest_even].
    rewrite (shr_fexp_canonical m e C).
    cbn [shr_m]. rewrite L. reflexivity.
  - replace (Z.min e (e - -52)) with e by lia.
    replace (e - -52 - e)%Z with 52%Z by lia.
    replace (Z.shiftl (Z.pos m) 52) with (Zpos m * 4503599627370496)%Z
      by (rewrite Z.shiftl_mul_pow2 by lia; change (2 ^ 52)%Z with 4503599627370496%Z; lia).
    rewrite (div_eucl_exact (Zpos m) 4503599627370496 P52).
    change (new_location 4503599627370496 0) with loc_Exact.
    unfold binary_round_aux.
    rewrite (shr_fexp_canonical m e C).
    cbn [shr_m loc_of_shr_record round_nearest_even].
    rewrite (shr_fexp_canonical m e C).
    cbn [shr_m]. rewrite L. reflexivity.
Qed.

Lemma div_one64 (x : float) : is_nan x = false -> x / 1 = x.
Proof.
  intros N. apply Prim2SF_inj. rewrite div_spec, Prim2SF_one.
  pose proof (Prim2SF_valid x) as V.
  destruct (Prim2SF x) as [s|s| |s m e] eqn:E.
  - simpl. now rewrite xorb_false_r.
  - simpl. now rewrite xorb_false_r.
  - apply is_nan_Prim2SF in E. congruence.
  - apply SFdiv_one. exact V.
Qed.

Lemma zero_add64 (x : float) : x <> -0 -> 0 + x = x.
Proof.
  intros Z. apply Prim2SF_inj. rewrite add_spec, Prim2SF_zero.
  destruct (Prim2SF x) as [s|s| |s m e] eqn:E; try reflexivity.
  destruct s; [|reflexivity].
  exfalso. apply Z. apply Prim2SF_inj. rewrite E. reflexivity.
Qed.

Lemma is_nan_zero_add (x : float) : is_nan x = false -> is_nan (0 + x) = false.
Proof.
  intros N. destruct (is_nan (0 + x)) eqn:M; [|reflexivity].
  apply is_nan_Prim2SF in M. rewrite add_spec, Prim2SF_zero in M.
  destruct (Prim2SF x) as [s|s| |s m e] eqn:E; try discriminate M.
  - destruct s; discriminate M.
  - apply is_nan_Prim2SF in E. congruence.
Qed.

End Binary64Single.


(** ** Fingerprint aggregator *)

Section FingerprintBinary64.
Open Scope float_scope.

Lemma nanmin_constant64 (m : float) :
  is_nan m = false -> nanmin (AF := binary64) [m; m; m; m; m] = m.
Proof.
  intros N. unfold nanmin. cbn [filter f_isnan binary64]. rewrite N.
  cbn [negb fold_left f_lt binary64].
  assert (K : forall b : bool, (if b then m else m) = m) by (now intros []).
  now rewrite !K.
Qed.

Lemma nanmax_constant64 (m : float) :
  is_nan m = false -> nanmax (AF := binary64) [m; m; m; m; m] = m.
Proof.
  intros N. unfold nanmax. cbn [filter f_isnan binary64]. rewrite N.
  cbn [negb fold_left f_lt binary64].
  assert (K : forall b : bool, (if b then m else m) = m) by (now intros []).
  now rewrite !K.
Qed.

Lemma scale_constant64 (m : float) :
  finite64 m -> scale_ (AF := binary64) [m; m; m; m; m] = 1.
Proof.
  intros Fm. pose proof (proj1 (finite64_iff m) Fm) as [N _].
  unfold scale_, data_range_. rewrite nanmin_constant64, nanmax_constant64 by assumption.
  cbn [f_sub f_div f_one f_zero binary64]. rewrite (sub_diag64 m Fm).
  reflexivity.
Qed.

Lemma transform_constant64 (m : float) :
  finite64 m -> transform (AF := binary64) [m; m; m; m; m] m = 0.
Proof.
  intros Fm. pose proof (proj1 (finite64_iff m) Fm) as [N _].
  unfold transform, min_. rewrite scale_constant64, nanmin_constant64 by assumption.
  cbn [f_add f_sub f_mul f_zero binary64]. rewrite (mul_one64 m Fm).
  apply add_zero_sub64. exact Fm.
Qed.

Lemma transform_minimum64 (X : list float) (x : float) :
  x = nanmin (AF := binary64) X ->
  finite64 (x * scale_ (AF := binary64) X) ->
  transform (AF := binary64) X x = 0.
Proof.
  intros -> Fy. unfold transform, min_.
  cbn [f_add f_sub f_mul f_zero binary64]. now apply add_zero_sub64.
Qed.

Lemma fit_transform_minimum64 (X vs : list float) :
  fit_transform (AF := binary64) X = Ok vs ->
  Forall2 (fun x v => x = nanmin X -> finite64 (x * scale_ X) -> v = 0) X vs.
Proof.
  unfold fit_transform. intros E.
  assert (E' : Ok (map (transform X) X) = Ok vs).
  { destruct X; [discriminate|].
    destruct (existsb f_isinf (f :: X)); [discriminate | exact E]. }
  injection E' as <-. apply Forall2_map_self.
  intros x _ Hx Fy. now apply transform_minimum64.
Qed.

End FingerprintBinary64.

Lemma fit_transform_constant64 (m : float) :
  finite64 m ->
  data_range_ (AF := binary64) [m; m; m; m; m] = 0%float /\
  scale_ (AF := binary64) [m; m; m; m; m] = 1%float /\
  fit_transform (AF := binary64) [m; m; m; m; m] = Ok [0; 0; 0; 0; 0]%float.
Proof.
  intros Fm. pose proof (proj1 (finite64_iff m) Fm) as [N I].
  split; [|split].
  - unfold data_range_. rewrite nanmin_constant64, nanmax_constant64 by assumption.
    apply (sub_diag64 m Fm).
  - apply scale_constant64, Fm.
  - unfold fit_transform.
    cbn [existsb f_isinf binary64]. rewrite I. cbn [orb map].
    rewrite (transform_constant64 m Fm). reflexivity.
Qed.

Lemma fit_transform_equal64 (a b c d e : float) :
  (forall x y, In x [a; b; c; d; e] -> In y [a; b; c; d; e] ->
               (x =? y)%float = true) ->
  (forall x, In x [a; b; c; d; e] -> is_infinity x = false) ->
  (data_range_ (AF := binary64) [a; b; c; d; e] =? 0)%float = true /\
  scale_ (AF := binary64) [a; b; c; d; e] = 1%float /\
  fit_transform (AF := binary64) [a; b; c; d; e] = Ok [0; 0; 0; 0; 0]%float.
Proof.
  intros E I.
  pose proof (eqb64_cases a b (E a b ltac:(simpl; auto) ltac:(simpl; auto))) as Cb.
  pose proof (eqb64_cases a c (E a c ltac:(simpl; auto) ltac:(simpl; auto))) as Cc.
  pose proof (eqb64_cases a d (E a d ltac:(simpl; auto) ltac:(simpl; auto))) as Cd.
  pose proof (eqb64_cases a e (E a e ltac:(simpl; auto 6) ltac:(simpl; auto 6))) as Ce.
  assert (A : (a = 0 \/ a = -0)%float \/ (a = b /\ a = c /\ a = d /\ a = e))
    by tauto.
  destruct A as [Za | [<- [<- [<- <-]]]].
  - assert (Zb : (b = 0 \/ b = -0)%float)
      by (destruct Cb as [<- | [_ ?]]; assumption).
    assert (Zc : (c = 0 \/ c = -0)%float)
      by (destruct Cc as [<- | [_ ?]]; assumption).
    assert (Zd : (d = 0 \/ d = -0)%float)
      by (destruct Cd as [<- | [_ ?]]; assumption).
    assert (Ze : (e = 0 \/ e = -0)%float)
      by (destruct Ce as [<- | [_ ?]]; assumption).
    destruct Za as [-> | ->], Zb as [-> | ->], Zc as [-> | ->],
             Zd as [-> | ->], Ze as [-> | ->];
      (split; [reflexivity | split; reflexivity]).
  - assert (Fa : finite64 a).
    { apply finite64_iff. split; [|apply I; now left].
      unfold is_nan. now rewrite (E a a (or_introl eq_refl) (or_introl eq_refl)). }
    destruct (fit_transform_constant64 a Fa) as [R [S T]].
    split; [now rewrite R | split; assumption].
Qed.

(** C3. In binary64, as the script runs: when the five feature means of
    the decade are equal numbers (equal as doubles, so that a zero of
    either sign counts as one number), the data range is 0,
    [_handle_zeros_in_scale] replaces it by 1 and the fingerprint is the
    vector of five zeros; no division by zero takes place. *)
Theorem radar_values_equal_means :
  forall (df : DataFrame float) (sel : option Z),
    let X := decade_features (decade_slice df sel) in
    (forall x y, In x X -> In y X -> (x =? y)%float = true) ->
    (forall x, In x X -> is_infinity x = false) ->
    (data_range_ X =? 0)%float = true /\
    handle_zeros_in_scale (data_range_ X) = 1%float /\
    scale_ X = 1%float /\
    radar_values df sel = Ok [0; 0; 0; 0; 0]%float.
Proof.
  intros df sel X E I. subst X.
  destruct (fit_transform_equal64 _ _ _ _ _ E I) as [R [S T]].
  split; [exact R|]. split; [|split; [exact S | exact T]].
  unfold decade_features in *.
  remember (data_range_ _) as r eqn:Er. clear Er.
  unfold handle_zeros_in_scale. cbn [f_lt f_ten_eps f_one binary64].
  destruct (eqb64_cases _ _ R) as [-> | [[-> | ->] _]]; reflexivity.
Qed.

Lemma fold_pick {A : Type} (p : A -> A -> bool) (t : list A) (x : A) :
  In (fold_left (fun a b => if p a b then b else a) t x) (x :: t).
Proof.
  revert x. induction t as [|y t IH]; intros x; simpl; [now left|].
  destruct (IH (if p x y then y else x)) as [E | I].
  - rewrite <- E. destruct (p x y); auto.
  - right. now right.
Qed.

(** The least of the means that are numbers is one of them. *)
Lemma nanmin_cases (X : list float) :
  (nanmin X = nan /\ forall x, In x X -> is_nan x = true) \/
  (In (nanmin X) X /\ is_nan (nanmin X) = false).
Proof.
  unfold nanmin.
  destruct (filter (fun x => negb (f_isnan x)) X) as [|x t] eqn:E.
  - left. split; [reflexivity|]. intros x I.
    destruct (is_nan x) eqn:N; [reflexivity|].
    assert (I' : In x (filter (fun x => negb (f_isnan x)) X))
      by (apply filter_In; split; [exact I | cbn; now rewrite N]).
    rewrite E in I'. contradiction.
  - right.
    pose proof (fold_pick (fun a b => f_lt b a) t x) as P.
    rewrite <- E in P. apply filter_In in P. destruct P as [I N].
    split; [exact I|]. cbn in N. now apply negb_true_iff in N.
Qed.

(** C10, as the code has it, in binary64.  The entry of a least mean is
    exactly 0 whenever its product with the scale is finite.  The scale
    is decided by the computed range, the rounded difference of the
    greatest and the least mean: when it is below [10 * 2^-52] the scale
    is 1 and every entry is [mean_i + (0 - min)], so that the entry of a
    greatest mean is the computed [max - min] and not 1; otherwise the
    scale is the rounded [1 / range] and the entry of a greatest mean is
    the rounded [max * scale + (0 - min * scale)], which is 1 up to
    rounding only. *)
Theorem radar_values_endpoints :
  forall (df : DataFrame float) (sel : option Z) (vs : list float),
    radar_values df sel = Ok vs ->
    let X := decade_features (decade_slice df sel) in
    Forall2 (fun x v => x = nanmin X -> finite64 (x * scale_ X)%float ->
                        v = 0%float) X vs /\
    ((data_range_ X <? ten_eps64)%float = true ->
     scale_ X = 1%float /\
     Forall2 (fun x v => finite64 x -> v = (x + (0 - nanmin X))%float) X vs) /\
    ((data_range_ X <? ten_eps64)%float = false ->
     scale_ X = (1 / data_range_ X)%float /\
     Forall2 (fun x v =>
                v = (x * (1 / data_range_ X)
                     + (0 - nanmin X * (1 / data_range_ X)))%float) X vs).
Proof.
  intros df sel vs E X.
  split; [now apply fit_transform_minimum64|].
  unfold radar_values in E. fold X in E. unfold fit_transform in E.
  assert (E' : existsb f_isinf X = false /\ vs = map (transform X) X).
  { destruct X as [|x0 X0]; [discriminate|].
    destruct (existsb f_isinf (x0 :: X0)); [discriminate|].
    injection E as <-. now split. }
  destruct E' as [I ->]. clear E.
  assert (Fin : forall x, In x X -> is_nan x = false -> finite64 x).
  { intros x Ix N. apply finite64_iff. split; [exact N|].
    destruct (is_infinity x) eqn:Ex; [|reflexivity].
    assert (H : existsb f_isinf X = true)
      by (apply existsb_exists; exists x; split; assumption).
    rewrite H in I. discriminate. }
  split.
  - intros R.
    assert (S1 : scale_ X = 1%float).
    { unfold scale_, handle_zeros_in_scale.
      cbn [f_lt f_ten_eps f_one f_zero f_sub f_div binary64]. now rewrite R. }
    split; [exact S1|].
    apply Forall2_map_self. intros x Ix Fx.
    unfold transform, min_. rewrite S1.
    cbn [f_add f_sub f_mul f_zero binary64].
    rewrite (mul_one64 x Fx).
    destruct (nanmin_cases X) as [[_ A] | [Im Nm]].
    + exfalso. apply finite64_iff in Fx. destruct Fx as [N _].
      rewrite (A x Ix) in N. discriminate.
    + now rewrite (mul_one64 _ (Fin _ Im Nm)).
  - intros R.
    assert (S1 : scale_ X = (1 / data_range_ X)%float).
    { unfold scale_, handle_zeros_in_scale.
      cbn [f_lt f_ten_eps f_one f_zero f_sub f_div binary64]. now rewrite R. }
    split; [exact S1|].
    apply Forall2_map_self. intros x _.
    unfold transform, min_. now rewrite S1.
Qed.

(** ** Top-N selector *)

Section SortedFacts.
Context {A : Type}.

Lemma StronglySorted_app_inv (R : A -> A -> Prop) (l1 l2 : list A) :
  StronglySorted R (l1 ++ l2) ->
  StronglySorted R l1 /\ StronglySorted R l2 /\
  (forall x y, In x l1 -> In y l2 -> R x y).
Proof.
  induction l1 as [|a l1 IH]; simpl; intros S.
  - split; [constructor|]. split; [assumption|]. intros x y [].
  - inversion S as [|? ? S' Ha]; subst.
    destruct (IH S') as [S1 [S2 C]].
    rewrite Forall_app in Ha. destruct Ha as [Ha1 Ha2].
    split; [now constructor|]. split; [assumption|].
    intros x y [<- | Ix] Iy.
    + rewrite Forall_forall in Ha2. now apply Ha2.
    + now apply C.
Qed.

Lemma StronglySorted_app (R : A -> A -> Prop) (l1 l2 : list A) :
  StronglySorted R l1 -> StronglySorted R l2 ->
  (forall x y, In x l1 -> In y l2 -> R x y) ->
  StronglySorted R (l1 ++ l2).
Proof.
  induction l1 as [|a l1 IH]; simpl; intros S1 S2 C; [assumption|].
  inversion S1 as [|? ? S1' Ha]; subst.
  constructor.
  - apply IH; auto.
  - apply Forall_app. split; [assumption|].
    apply Forall_forall. intros y Iy. apply C; auto.
Qed.

Lemma StronglySorted_rev (R : A -> A -> Prop) (l : list A) :
  StronglySorted R l -> StronglySorted (fun x y => R y x) (rev l).
Proof.
  induction 1 as [|a l S IH Ha]; simpl; [constructor|].
  apply StronglySorted_app; [assumption | repeat constructor |].
  intros x y Ix [<- | []]. apply in_rev in Ix.
  rewrite Forall_forall in Ha. now apply Ha.
Qed.

Lemma StronglySorted_weaken (R R' : A -> A -> Prop) (l : list A) :
  (forall x y, In x l -> In y l -> R x y -> R' x y) ->
  StronglySorted R l -> StronglySorted R' l.
Proof.
  intros W S. induction S as [|a l S IH Ha]; [constructor|].
  constructor.
  - apply IH. intros x y Ix Iy. apply W; now right.
  - rewrite Forall_forall in *. intros y Iy.
    apply W; [now left | now right | now apply Ha].
Qed.

Lemma StronglySorted_firstn (R : A -> A -> Prop) (n : nat) (l : list A) :
  StronglySorted R l -> StronglySorted R (firstn n l).
Proof.
  intros S. rewrite <- (firstn_skipn n l) in S.
  now apply StronglySorted_app_inv in S.
Qed.

Lemma StronglySorted_map {B : Type} (R : B -> B -> Prop) (f : A -> B) (l : list A) :
  StronglySorted (fun x y => R (f x) (f y)) l -> StronglySorted R (map f l).
Proof.
  induction 1 as [|a l S IH Ha]; simpl; constructor; [assumption|].
  apply Forall_map. exact Ha.
Qed.

Lemma take_valid (rows : list A) (indexer : list nat) :
  Forall (fun i => (i < List.length rows)%nat) indexer ->
  exists out, take rows indexer = Ok out /\
              Forall2 (fun i r => nth_error rows i = Some r) indexer out.
Proof.
  induction 1 as [|i t Hi _ [out [E P]]]; simpl.
  - exists []. split; [reflexivity | constructor].
  - destruct (nth_error rows i) as [r|] eqn:N.
    + exists (r :: out). rewrite E. split; [reflexivity | now constructor].
    + apply nth_error_None in N. lia.
Qed.


End SortedFacts.

Lemma map_nth_seq {A : Type} (l : list A) (d : A) :
  map (fun j => nth j l d) (seq 0 (List.length l)) = l.
Proof.
  apply (nth_ext _ _ d d).
  - now rewrite length_map, length_seq.
  - intros n H. rewrite length_map, length_seq in H.
    rewrite (nth_indep _ d (nth 0 l d)) by (now rewrite length_map, length_seq).
    rewrite (map_nth (fun j => nth j l d)). now rewrite seq_nth.
Qed.

Lemma nth_rev_seq (n j : nat) :
  (j < n)%nat -> nth j (rev (seq 0 n)) 0%nat = (n - 1 - j)%nat.
Proof.
  intros H. rewrite rev_nth by (now rewrite length_seq).
  rewrite length_seq, seq_nth by lia. lia.
Qed.

Lemma Permutation_seq_bound (l : list nat) (n : nat) :
  Permutation l (seq 0 n) -> Forall (fun i => (i < n)%nat) l.
Proof.
  intros P. apply Forall_forall. intros i I.
  apply (Permutation_in _ P) in I. apply in_seq in I. lia.
Qed.

Section NargsortFacts.
Variable argsort : list Z -> list nat.
Hypothesis contract : ArgsortContract argsort.

Lemma argsort_bound (keys : list Z) :
  Forall (fun j => (j < List.length keys)%nat) (argsort keys).
Proof. apply Permutation_seq_bound, (argsort_perm contract). Qed.

Lemma nargsort_desc_eq (keys : list Z) :
  nargsort_desc argsort keys =
  rev (map (fun j => (List.length keys - 1 - j)%nat) (argsort (rev keys))).
Proof.
  unfold nargsort_desc. f_equal. apply map_ext_in. intros j I.
  apply nth_rev_seq.
  pose proof (argsort_bound (rev keys)) as B. rewrite Forall_forall in B.
  specialize (B j I). now rewrite length_rev in B.
Qed.

Lemma nargsort_desc_perm (keys : list Z) :
  Permutation (nargsort_desc argsort keys) (seq 0 (List.length keys)).
Proof.
  unfold nargsort_desc. rewrite <- Permutation_rev.
  transitivity (map (fun j => nth j (rev (seq 0 (List.length keys))) 0%nat)
                    (seq 0 (List.length (rev (seq 0 (List.length keys)))))).
  - apply Permutation_map.
    rewrite length_rev, length_seq, <- (length_rev keys).
    apply (argsort_perm contract).
  - rewrite map_nth_seq. symmetry. apply Permutation_rev.
Qed.

Lemma key_at_rev (keys : list Z) (j : nat) :
  (j < List.length keys)%nat ->
  key_at (rev keys) j = key_at keys (List.length keys - 1 - j).
Proof.
  intros H. unfold key_at. rewrite rev_nth by assumption. f_equal. lia.
Qed.

Lemma nargsort_desc_sorted (keys : list Z) :
  StronglySorted (fun i j => (key_at keys j <= key_at keys i)%Z)
                 (nargsort_desc argsort keys).
Proof.
  rewrite nargsort_desc_eq.
  apply (StronglySorted_rev (fun i j => (key_at keys i <= key_at keys j)%Z)).
  apply StronglySorted_map.
  pose proof (argsort_bound (rev keys)) as B.
  rewrite Forall_forall, length_rev in B.
  eapply StronglySorted_weaken; [|apply (argsort_sorted contract)].
  cbv beta. intros x y Ix Iy H.
  rewrite <- !key_at_rev by auto. exact H.
Qed.


Lemma nargsort_desc_bound (keys : list Z) :
  Forall (fun i => (i < List.length keys)%nat) (nargsort_desc argsort keys).
Proof. apply Permutation_seq_bound, nargsort_desc_perm. Qed.



Lemma In_firstn {A : Type} (n : nat) (l : list A) (x : A) :
  In x (firstn n l) -> In x l.
Proof.
  intros I. rewrite <- (firstn_skipn n l). apply in_or_app. now left.
Qed.


End NargsortFacts.

Section InsertionArgsortFacts.
Variable before : Z -> Z -> bool.
Hypothesis before_le : forall a b, before a b = true -> (a <= b)%Z.
Hypothesis before_ge : forall a b, before a b = false -> (b <= a)%Z.

Lemma insert_index_perm (keys : list Z) (i : nat) (l : list nat) :
  Permutation (insert_index before keys i l) (i :: l).
Proof.
  induction l as [|j l IH]; simpl; [reflexivity|].
  destruct (before _ _); [reflexivity|].
  rewrite IH. apply perm_swap.
Qed.

Lemma insert_index_sorted (keys : list Z) (i : nat) (l : list nat) :
  StronglySorted (fun a b => (key_at keys a <= key_at keys b)%Z) l ->
  StronglySorted (fun a b => (key_at keys a <= key_at keys b)%Z)
                 (insert_index before keys i l).
Proof.
  induction 1 as [|j l S IH Hj]; simpl; [repeat constructor|].
  destruct (before _ _) eqn:E.
  - apply before_le in E. constructor; [now constructor|].
    constructor; [assumption|].
    eapply Forall_impl; [|exact Hj]. cbv beta. intros; lia.
  - apply before_ge in E. constructor; [assumption|].
    apply Forall_forall. intros x Ix.
    apply (Permutation_in _ (insert_index_perm keys i l)) in Ix.
    destruct Ix as [<- | Ix]; [assumption|].
    rewrite Forall_forall in Hj. now apply Hj.
Qed.

Lemma fold_insert_index (keys : list Z) (l acc : list nat) :
  let out := fold_left (fun acc i => insert_index before keys i acc) l acc in
  Permutation out (l ++ acc) /\
  (StronglySorted (fun a b => (key_at keys a <= key_at keys b)%Z) acc ->
   StronglySorted (fun a b => (key_at keys a <= key_at keys b)%Z) out).
Proof.
  revert acc. induction l as [|i l IH]; simpl; intros acc.
  - split; [reflexivity | auto].
  - destruct (IH (insert_index before keys i acc)) as [P S]. split.
    + rewrite P. rewrite insert_index_perm. symmetry. apply Permutation_middle.
    + intros H. apply S, insert_index_sorted, H.
Qed.

Lemma insertion_argsort_contract : ArgsortContract (insertion_argsort before).
Proof.
  split; intros keys; unfold insertion_argsort;
    destruct (fold_insert_index keys (seq 0 (List.length keys)) []) as [P S].
  - rewrite app_nil_r in P. exact P.
  - apply S. constructor.
Qed.

End InsertionArgsortFacts.

Lemma insertion_argsort_ltb_contract : ArgsortContract (insertion_argsort Z.ltb).
Proof.
  apply insertion_argsort_contract; intros a b H.
  - apply Z.ltb_lt in H. lia.
  - apply Z.ltb_ge in H. lia.
Qed.

Lemma insertion_argsort_leb_contract : ArgsortContract (insertion_argsort Z.leb).
Proof.
  apply insertion_argsort_contract; intros a b H.
  - apply Z.leb_le in H. lia.
  - apply Z.leb_gt in H. lia.
Qed.




Lemma Forall2_map_right {A B C : Type} (R : A -> B -> Prop) (f : B -> C)
  (l : list A) (l' : list B) :
  Forall2 R l l' ->
  Forall2 (fun a c => exists b, R a b /\ c = f b) l (map f l').
Proof.
  induction 1; simpl; constructor; eauto.
Qed.

Lemma decade_slice_rows {F : Type} (df : DataFrame F) (sel : option Z) :
  Subsequence (decade_slice df sel) df /\
  (forall d, sel = Some d ->
     forall r, In r (decade_slice df sel) <-> In r df /\ decade r = d).
Proof.
  split.
  - destruct sel; simpl.
    + apply filter_Subsequence.
    + induction df; constructor; assumption.
  - intros d -> r. simpl. rewrite filter_In, Z.eqb_eq. tauto.
Qed.



(** *** The cleanup of the rows *)

(** [r] is [r0] with its artists text cleaned. *)
Definition cleaned {F : Type} (r0 r : Track F) : Prop :=
  exists text, artists r0 = Some text /\ r = with_artists r0 (clean_artists text).

Lemma apply_clean_ok {F : Type} (rows : DataFrame F) :
  Forall (fun r0 => artists r0 <> None) rows ->
  exists out, apply_clean rows = Ok out /\ Forall2 cleaned rows out.
Proof.
  induction 1 as [|r0 rows H _ [out [E R]]]; simpl.
  - exists []. split; [reflexivity | constructor].
  - unfold clean_row. destruct (artists r0) as [text|] eqn:A; [|contradiction].
    simpl. rewrite E. simpl.
    exists (with_artists r0 (clean_artists text) :: out).
    split; [reflexivity|]. constructor; [|exact R]. now exists text.
Qed.

Lemma apply_clean_raise {F : Type} (rows : DataFrame F) :
  Exists (fun r0 => artists r0 = None) rows ->
  apply_clean rows = Raise AttributeError.
Proof.
  induction 1 as [r0 rows H | r0 rows _ IH]; simpl; unfold clean_row.
  - now rewrite H.
  - destruct (artists r0); simpl; [now rewrite IH | reflexivity].
Qed.

Lemma artists_present_or_missing {F : Type} (rows : DataFrame F) :
  Forall (fun r0 => artists r0 <> None) rows \/
  Exists (fun r0 => artists r0 = None) rows.
Proof.
  induction rows as [|r0 rows [A | E]].
  - left. constructor.
  - destruct (artists r0) as [text|] eqn:T.
    + left. constructor; [congruence | exact A].
    + right. now left.
  - right. now right.
Qed.

Lemma apply_clean_cases {F : Type} (rows : DataFrame F) :
  (exists out, apply_clean rows = Ok out /\ Forall2 cleaned rows out /\
               Forall (fun r0 => artists r0 <> None) rows) \/
  (apply_clean rows = Raise AttributeError /\
   Exists (fun r0 => artists r0 = None) rows).
Proof.
  destruct (artists_present_or_missing rows) as [A | X].
  - left. destruct (apply_clean_ok rows A) as [out [E R]]. now exists out.
  - right. split; [now apply apply_clean_raise | exact X].
Qed.

(** *** numpy's quicksort on a short column *)

Section ShortColumns.
Variable keys : list Z.









End ShortColumns.


(** *** The selector under the contract of the sort *)



(** ** Correlation sampler *)

Lemma rot_permutation_contract : PermutationContract rot_permutation.
Proof.
  intros rs n. unfold rot_permutation. simpl.
  rewrite Permutation_app_comm. now rewrite firstn_skipn.
Qed.

Lemma Forall2_length_eq {A B : Type} (R : A -> B -> Prop) (l : list A) (l' : list B) :
  Forall2 R l l' -> List.length l = List.length l'.
Proof. induction 1; simpl; congruence. Qed.

(** ** Aggregators on a table without rows *)

Lemma argsort_nil (argsort : list Z -> list nat) :
  ArgsortContract argsort -> argsort [] = [].
Proof.
  intros C. apply Permutation_nil. symmetry. apply (argsort_perm C []).
Qed.

(** C2, as the code has it.  On a selection without rows no aggregator
    raises.  The yearly means, the top songs and the scatter sample are
    empty.  The fingerprint is not empty: the five means of no row are NaN,
    the scaler accepts NaN, and the result is a vector of five NaN.  With
    no decade selected the focus select box has no option and returns
    [None], which selects no row either. *)
Theorem aggregators_without_rows :
  forall (argsort : list Z -> list nat),
    ArgsortContract argsort ->
    forall (F : Type) (AF : Arith F) (rng : Type) (seeded : Z -> rng)
           (permutation : rng -> nat -> list nat * rng) (global : rng),
      (forall data : DataFrame F,
         filtered_data data [] = [] /\
         default_decade_radar (filtered_data data []) = None /\
         yearly_avg_features (filtered_data data []) = []) /\
      (forall (df : DataFrame F) (sel : option Z),
         decade_slice df sel = [] -> top_songs argsort df sel = Ok []) /\
      scatter_data seeded permutation ([] : DataFrame F) global = (Ok [], global) /\
      (forall (df : DataFrame float) (sel : option Z),
         decade_slice df sel = [] ->
         radar_values df sel = Ok [nan; nan; nan; nan; nan]%float) /\
      (forall (df : DataFrame xQ) (sel : option Z),
         decade_slice df sel = [] ->
         radar_values df sel = Ok [None; None; None; None; None]).
Proof.
  intros argsort C F AF rng seeded permutation global.
  split; [|split; [|split; [|split]]].
  - intros data.
    assert (E : filtered_data data [] = []) by (apply filter_none; reflexivity).
    rewrite E. repeat split; reflexivity.
  - intros df sel E. unfold top_songs, top_n, sort_values_desc, nargsort_desc.
    rewrite E. simpl. rewrite (argsort_nil argsort C). reflexivity.
  - reflexivity.
  - intros df sel E. unfold radar_values. rewrite E. reflexivity.
  - intros df sel E. unfold radar_values. rewrite E. reflexivity.
Qed.

(** C2, as the specification words it, fails for the fingerprint: on a
    selection without rows it returns five NaN, not an empty result. *)
Lemma radar_values_without_rows_not_empty :
  radar_values (AF := binary64) [] None = Ok [nan; nan; nan; nan; nan]%float /\
  radar_values (AF := binary64) (filtered_data equal_means_table [])
               (default_decade_radar (filtered_data equal_means_table []))
  = Ok [nan; nan; nan; nan; nan]%float /\
  ~ (forall (df : DataFrame float) (sel : option Z),
       decade_slice df sel = [] -> radar_values df sel = Ok []).
Proof.
  split; [reflexivity|]. split; [reflexivity|].
  intros H. specialize (H [] None eq_refl). discriminate H.
Qed.

(* ================================================================== *)
(** * The properties on the example tables *)



(** With no decade selected, on the example table. *)
Lemma aggregators_without_rows_witness :
  top_songs (insertion_argsort Z.ltb) (filtered_data ties_table []) None = Ok [] /\
  radar_values (filtered_data ties_table []) None = Ok [nan; nan; nan; nan; nan]%float.
Proof.
  pose proof (aggregators_without_rows (insertion_argsort Z.ltb)
                insertion_argsort_ltb_contract float binary64 nat rot_seeded
                rot_permutation 0%nat) as [_ [T [_ [R _]]]].
  split.
  - apply T. reflexivity.
  - apply R. reflexivity.
Defined.

(** Two tracks whose features average to 0.5 each. *)
Lemma radar_values_equal_means_witness :
  decade_features (decade_slice equal_means_table (Some 1960%Z))
  = [0.5; 0.5; 0.5; 0.5; 0.5]%float /\
  radar_values equal_means_table (Some 1960%Z) = Ok [0; 0; 0; 0; 0]%float.
Proof.
  split; [reflexivity|].
  apply (radar_values_equal_means equal_means_table (Some 1960%Z)).
  - intros x y Hx Hy. simpl in Hx, Hy.
    repeat (destruct Hx as [<- | Hx]); try contradiction;
      repeat (destruct Hy as [<- | Hy]); try contradiction; reflexivity.
  - intros x Hx. simpl in Hx.
    repeat (destruct Hx as [<- | Hx]); try contradiction; reflexivity.
Defined.

(** Of the three example rows, the one of 1959 is dropped. *)
Lemma load_data_decade_witness :
  let r := add_decade (csv64 "Yesterday" "['The Beatles']" 1965 76
                         0.332 0.179 0.315 0.879 0.0326) in
  In r (load_data example_csv) /\ decade r = 1960%Z /\
  (decade r mod 10 = 0)%Z /\
  List.length (load_data example_csv) = 2%nat.
Proof.
  intros r.
  assert (R : forall raw, In raw example_csv -> int64 (csv_year raw)).
  { intros raw [<- | [<- | [<- | []]]];
      unfold int64, int64_min, int64_max; simpl; lia. }
  assert (I : In r (load_data example_csv)) by (left; reflexivity).
  destruct (load_data_decade float example_csv R r I) as [_ [_ [E _]]].
  destruct E as [E [M _]]; [unfold first_exact_year; simpl; lia|].
  split; [exact I|]. split; [rewrite E; reflexivity|].
  split; [exact M | reflexivity].
Defined.

(** C7, as the specification words it, fails at the least int64 year:
    [floor(year/10)*10] is [-9223372036854775810], which is no int64; the
    product wraps to [9223372036854775806], the record passes the test
    [decade >= 1960] and stays in the working table with a decade that is
    neither [floor(year/10)*10] nor a multiple of 10. *)
Lemma load_data_keeps_wrapped_year :
  int64 (-9223372036854775808) /\
  load_data wrapped_csv = map add_decade wrapped_csv /\
  map (@year float) (load_data wrapped_csv) = [-9223372036854775808]%Z /\
  map (@decade float) (load_data wrapped_csv) = [9223372036854775806]%Z /\
  ((-9223372036854775808 / 10) * 10 = -9223372036854775810)%Z /\
  (9223372036854775806 mod 10 = 6)%Z /\
  ~ (forall (csv : list (CsvRow float)) (r : Track float),
       (forall raw, In raw csv -> int64 (csv_year raw)) ->
       In r (load_data csv) ->
       (decade r = (year r / 10) * 10 /\ decade r mod 10 = 0)%Z).
Proof.
  split; [unfold int64, int64_min, int64_max; lia|].
  split; [reflexivity|]. split; [reflexivity|]. split; [reflexivity|].
  split; [reflexivity|]. split; [reflexivity|].
  intros H.
  destruct (H wrapped_csv
              (add_decade (csv64 "Z" "['Z']" (-9223372036854775808) 0
                                 0.5 0.5 0.5 0.5 0.5))) as [_ M].
  - intros raw [<- | []]. unfold int64, int64_min, int64_max. simpl. lia.
  - left. reflexivity.
  - discriminate M.
Qed.

(** C8, as the specification words it, fails in binary64: for three
    tracks of one year with danceability 0.1, 0.2 and 0.3 the row of the
    year holds 0.19999999999999998, which is not the arithmetic mean of
    the three doubles, and not the double nearest to it either: 0.2 is
    nearer. *)
Lemma yearly_mean_not_arithmetic :
  map (@yr_danceability float) (yearly_avg_features tenths_table)
  = [0.19999999999999998]%float /\
  map (@danceability float) (rows_of_year tenths_table 1961)
  = [0.1; 0.2; 0.3]%float /\
  ~ holds_arithmetic_mean 0.19999999999999998%float [0.1; 0.2; 0.3]%float /\
  (exists q m near,
     float_to_Q 0.19999999999999998%float = Some q /\
     spec_arithmetic_mean [0.1; 0.2; 0.3]%float = Some m /\
     float_to_Q 0.2%float = Some near /\
     (Qabs (near - m) < Qabs (q - m))%Q) /\
  ~ (forall (df : DataFrame float) (row : YearRow float),
       In row (yearly_avg_features df) ->
       holds_arithmetic_mean
         (yr_danceability row)
         (map (@danceability float) (rows_of_year df (yr_year row)))).
Proof.
  assert (Y : yearly_avg_features tenths_table
              = [mkYearRow 1961 0.19999999999999998 0.5 0.5 0.5]%float)
    by (vm_compute; reflexivity).
  assert (N : ~ holds_arithmetic_mean 0.19999999999999998%float [0.1; 0.2; 0.3]%float).
  { intros [q [m [Hq [Hm E]]]].
    vm_compute in Hq. injection Hq as <-.
    vm_compute in Hm. injection Hm as <-.
    vm_compute in E. discriminate E. }
  split; [now rewrite Y|]. split; [vm_compute; reflexivity|].
  split; [exact N|]. split.
  - do 3 eexists.
    split; [vm_compute; reflexivity|]. split; [vm_compute; reflexivity|].
    split; [vm_compute; reflexivity|]. vm_compute. reflexivity.
  - intros H. apply N.
    specialize (H tenths_table (mkYearRow 1961 0.19999999999999998 0.5 0.5 0.5)%float).
    rewrite Y in H. specialize (H (or_introl eq_refl)).
    exact H.
Qed.

(** C9, as the specification words it, fails in binary64: for one track
    with features 0.819, 0.341, 0.963, 0.732 and 0.415 the scaler returns
    1.0000000000000002 for the largest mean. *)
Lemma radar_values_above_one :
  decade_features (decade_slice above_one_table (Some 1960%Z))
  = [0.819; 0.341; 0.963; 0.732; 0.415]%float /\
  radar_values above_one_table (Some 1960%Z)
  = Ok [0.76848874598070749; 0; 1.0000000000000002;
        0.62861736334405149; 0.11897106109324751]%float /\
  (let X := [0.819; 0.341; 0.963; 0.732; 0.415]%float in
   data_range_ X = 0.62199999999999989%float /\
   scale_ X = 1.6077170418006435%float /\
   min_ X = (-0.54823151125401948)%float /\
   (0.963 * scale_ X)%float = 1.5482315112540197%float /\
   (1.5482315112540197 + -0.54823151125401948)%float = 1.0000000000000002%float) /\
  (1 <? 1.0000000000000002)%float = true /\
  ~ (forall (df : DataFrame float) (sel : option Z) (vs : list float),
       (exists a b, In a (decade_features (decade_slice df sel)) /\
                    In b (decade_features (decade_slice df sel)) /\
                    (a =? b)%float = false) ->
       radar_values df sel = Ok vs ->
       Forall (fun v => (0 <=? v)%float = true /\ (v <=? 1)%float = true) vs).
Proof.
  assert (E : radar_values above_one_table (Some 1960%Z)
              = Ok [0.76848874598070749; 0; 1.0000000000000002;
                    0.62861736334405149; 0.11897106109324751]%float)
    by (vm_compute; reflexivity).
  split; [vm_compute; reflexivity|]. split; [exact E|].
  split; [repeat split; vm_compute; reflexivity|].
  split; [vm_compute; reflexivity|].
  intros H.
  assert (D : exists a b,
            In a (decade_features (decade_slice above_one_table (Some 1960%Z))) /\
            In b (decade_features (decade_slice above_one_table (Some 1960%Z))) /\
            (a =? b)%float = false).
  { exists 0.819%float, 0.341%float.
    split; [left; vm_compute; reflexivity|].
    split; [right; left; vm_compute; reflexivity | vm_compute; reflexivity]. }
  pose proof (H above_one_table (Some 1960%Z) _ D E) as H'.
  rewrite Forall_forall in H'.
  destruct (H' 1.0000000000000002%float) as [_ H3].
  - right. right. now left.
  - vm_compute in H3. discriminate H3.
Qed.

(** C10, as the specification words it, fails in binary64.  The entry
    of the greatest mean is 0.99999999999999978 for one track with
    features 0.279, 0.211, 0.0594, 0.982 and 0.0366.  And for the means
    0.5 (four times) and 0.5000000000000001 the computed range is below
    [10 * 2^-52], the scaler does not rescale, and the entry of the
    greatest mean is the computed [max - min]. *)
Lemma radar_values_max_not_one :
  radar_values below_one_table (Some 1960%Z)
  = Ok [0.25639940765813413; 0.1844721810873704; 0.024116775967844291;
        0.99999999999999978; 0]%float /\
  nanmax (decade_features (decade_slice below_one_table (Some 1960%Z)))
  = 0.982%float /\
  radar_values near_constant_table (Some 1960%Z)
  = Ok [0; 0; 0; 0; 1.1102230246251565e-16]%float /\
  nanmax (decade_features (decade_slice near_constant_table (Some 1960%Z)))
  = 0.5000000000000001%float /\
  (let X := [0.5; 0.5; 0.5; 0.5; 0.5000000000000001]%float in
   data_range_ X = 1.1102230246251565e-16%float /\
   (data_range_ X <? ten_eps64)%float = true /\
   scale_ X = 1%float /\
   min_ X = (-0.5)%float) /\
  ~ (forall (df : DataFrame float) (sel : option Z) (vs : list float),
       let X := decade_features (decade_slice df sel) in
       (exists a b, In a X /\ In b X /\ (a =? b)%float = false) ->
       radar_values df sel = Ok vs ->
       Forall2 (fun x v => x = nanmax X -> v = 1%float) X vs).
Proof.
  assert (E : radar_values near_constant_table (Some 1960%Z)
              = Ok [0; 0; 0; 0; 1.1102230246251565e-16]%float)
    by (vm_compute; reflexivity).
  assert (X : decade_features (decade_slice near_constant_table (Some 1960%Z))
              = [0.5; 0.5; 0.5; 0.5; 0.5000000000000001]%float)
    by (vm_compute; reflexivity).
  split; [vm_compute; reflexivity|]. split; [vm_compute; reflexivity|].
  split; [exact E|].
  split; [vm_compute; reflexivity|].
  split; [repeat split; vm_compute; reflexivity|].
  intros H.
  specialize (H near_constant_table (Some 1960%Z)
                [0; 0; 0; 0; 1.1102230246251565e-16]%float).
  cbv zeta in H. rewrite X in H.
  assert (D : exists a b,
            In a [0.5; 0.5; 0.5; 0.5; 0.5000000000000001]%float /\
            In b [0.5; 0.5; 0.5; 0.5; 0.5000000000000001]%float /\
            (a =? b)%float = false).
  { exists 0.5%float, 0.5000000000000001%float.
    split; [now left|]. split; [simpl; tauto | vm_compute; reflexivity]. }
  specialize (H D E).
  inversion H as [|? ? ? ? _ H1]; subst. inversion H1 as [|? ? ? ? _ H2]; subst.
  inversion H2 as [|? ? ? ? _ H3]; subst. inversion H3 as [|? ? ? ? _ H4]; subst.
  inversion H4 as [|? ? ? ? H5 _]; subst.
  assert (M : 0.5000000000000001%float
              = nanmax [0.5; 0.5; 0.5; 0.5; 0.5000000000000001]%float)
    by (vm_compute; reflexivity).
  specialize (H5 M).
  apply (f_equal (fun z => (z =? 1)%float)) in H5.
  vm_compute in H5. discriminate H5.
Qed.

(** The end points on the example tables.  The entry of the least mean
    is 0.  The test of the range is made on the computed range: for the
    means 1e-40 (four times) and [10 * 2^-52] the difference rounds to
    [10 * 2^-52], which is not below it, and the scaler rescales to 0
    and 1. *)
Lemma radar_values_endpoints_witness :
  (exists vs,
     radar_values above_one_table (Some 1960%Z) = Ok vs /\
     nth 1 vs 7%float = 0%float) /\
  (let X := decade_features (decade_slice boundary_table (Some 1960%Z)) in
   data_range_ X = ten_eps64 /\
   radar_values boundary_table (Some 1960%Z) = Ok [0; 1; 0; 0; 0]%float).
Proof.
  assert (E : radar_values above_one_table (Some 1960%Z)
              = Ok [0.76848874598070749; 0; 1.0000000000000002;
                    0.62861736334405149; 0.11897106109324751]%float)
    by (vm_compute; reflexivity).
  assert (X : decade_features (decade_slice above_one_table (Some 1960%Z))
              = [0.819; 0.341; 0.963; 0.732; 0.415]%float)
    by (vm_compute; reflexivity).
  split.
  - eexists. split; [exact E|].
    destruct (radar_values_endpoints above_one_table (Some 1960%Z) _ E)
      as [S _].
    rewrite X in S.
    inversion S as [|? ? ? ? _ S1]; subst. inversion S1 as [|? ? ? ? A _]; subst.
    simpl. apply A.
    + vm_compute. reflexivity.
    + apply finite64_iff. split; vm_compute; reflexivity.
  - split; vm_compute; reflexivity.
Defined.

(* ================================================================== *)
(** * Further properties of the pipeline *)

(** ** The decade of a year *)

(** On the int64 years from [first_exact_year] on, [decade_of] maps a year
    to the multiple of 10 at or below it, also for a negative year (floor
    division, not truncation); it is monotone there and leaves a decade
    where it is.  On the eight int64 years below, the product wraps: the
    decade is [int64_max - 1], above the year and no multiple of 10.  The
    decade of an int64 year is an int64. *)
Theorem decade_of_bucket :
  (forall y d : Z,
     (first_exact_year <= y <= int64_max)%Z ->
     (decade_of y = d <-> (d mod 10 = 0 /\ d <= y < d + 10)%Z)) /\
  (forall y1 y2 : Z,
     (first_exact_year <= y1)%Z -> (y1 <= y2)%Z -> (y2 <= int64_max)%Z ->
     (decade_of y1 <= decade_of y2)%Z) /\
  (forall y : Z,
     (first_exact_year <= y <= int64_max)%Z ->
     decade_of (decade_of y) = decade_of y) /\
  (forall y1 y2 : Z,
     (first_exact_year <= y1 <= int64_max)%Z ->
     (first_exact_year <= y2 <= int64_max)%Z ->
     decade_of y1 = decade_of y2 -> (-10 < y1 - y2 < 10)%Z) /\
  (forall y : Z,
     (int64_min <= y < first_exact_year)%Z ->
     decade_of y = 9223372036854775806%Z /\
     (y < decade_of y)%Z /\ (decade_of y mod 10 = 6)%Z) /\
  (forall y : Z, int64 y -> int64 (decade_of y)).
Proof.
  split; [|split; [|split; [|split; [|split]]]].
  - intros y d R. rewrite (decade_of_exact y R). split.
    + intros <-. split; [apply Z.mod_mul; lia | apply floor_decade_bounds].
    + intros [M B].
      apply Z.mod_divide in M; [|lia]. destruct M as [k ->].
      f_equal. symmetry. apply (Z.div_unique y 10 k (y - k * 10)); lia.
  - intros y1 y2 L1 L U.
    rewrite (decade_of_exact y1), (decade_of_exact y2) by lia.
    apply Z.mul_le_mono_nonneg_r; [lia|]. apply Z.div_le_mono; lia.
  - intros y R. rewrite (decade_of_exact y R).
    pose proof (floor_decade_bounds y) as B.
    assert (L : (-922337203685477580 <= y / 10)%Z)
      by (apply Z.div_le_lower_bound; unfold first_exact_year in R; lia).
    rewrite decade_of_exact by (unfold first_exact_year, int64_max in *; lia).
    now rewrite Z.div_mul by lia.
  - intros y1 y2 R1 R2 E.
    pose proof (decade_of_bounds y1 R1). pose proof (decade_of_bounds y2 R2). lia.
  - intros y R. rewrite (decade_of_wrapped y R).
    split; [reflexivity|]. split; [|reflexivity].
    unfold first_exact_year in R. lia.
  - intros y [L U]. destruct (Z_lt_le_dec y first_exact_year) as [W | E].
    + rewrite (decade_of_wrapped y (conj L W)).
      unfold int64, int64_min, int64_max. lia.
    + pose proof (decade_of_bounds y (conj E U)) as B.
      pose proof (decade_of_exact y (conj E U)) as X.
      assert (G : (-922337203685477580 <= y / 10)%Z)
        by (apply Z.div_le_lower_bound; unfold first_exact_year in E; lia).
      unfold int64, int64_min, int64_max in *. lia.
Qed.

(** ** The loader *)

Lemma filter_self_all {A : Type} (p : A -> bool) (l : list A) :
  filter p l = l -> forall x, In x l -> p x = true.
Proof.
  induction l as [|a l IH]; simpl; intros E x I; [contradiction|].
  destruct (p a) eqn:Pa.
  - injection E as E. destruct I as [<- | I]; auto.
  - exfalso. pose proof (filter_length_le p l) as L.
    rewrite E in L. simpl in L. lia.
Qed.

(** [load_data] keeps the rows in file order and works row by row: it is a
    subsequence of the CSV rows with their decade, the table of two files
    put end to end is the two tables put end to end, and, the years
    being int64, no row is dropped exactly when every year is 1960 or
    later or one of the eight least int64 years, whose decade wraps. *)
Theorem load_data_in_file_order :
  forall (F : Type) (csv : list (CsvRow F)),
    Subsequence (load_data csv) (map add_decade csv) /\
    (forall c1 c2 : list (CsvRow F),
       load_data (c1 ++ c2) = load_data c1 ++ load_data c2) /\
    (List.length (load_data csv) <= List.length csv)%nat /\
    ((forall raw, In raw csv -> int64 (csv_year raw)) ->
     (load_data csv = map add_decade csv <->
      forall raw, In raw csv ->
        (1960 <= csv_year raw \/ csv_year raw < first_exact_year)%Z)).
Proof.
  intros F csv. split; [|split; [|split]].
  - apply filter_Subsequence.
  - intros c1 c2. unfold load_data. now rewrite map_app, filter_app.
  - unfold load_data. rewrite <- (length_map add_decade csv).
    apply filter_length_le.
  - intros R. unfold load_data. split.
    + intros E raw I.
      pose proof (filter_self_all _ _ E (add_decade raw) (in_map _ _ _ I)) as H.
      simpl in H. apply Z.leb_le in H.
      now apply (proj1 (decade_ge_1960_iff _ (R raw I))).
    + intros H. apply filter_all. intros r I. apply in_map_iff in I.
      destruct I as [raw [<- I]]. simpl. apply Z.leb_le.
      apply (proj2 (decade_ge_1960_iff _ (R raw I))). now apply H.
Qed.

(** ** The decade select boxes *)

Lemma unique_NoDup (l : list Z) : NoDup (unique l).
Proof.
  induction l as [|x l IH]; simpl; constructor.
  - rewrite filter_In. intros [_ H]. now rewrite Z.eqb_refl in H.
  - now apply NoDup_filter.
Qed.

Lemma insert_sorted_perm (x : Z) (l : list Z) :
  Permutation (insert_sorted x l) (x :: l).
Proof.
  induction l as [|y l IH]; simpl; [reflexivity|].
  destruct (x <=? y)%Z; [reflexivity|]. rewrite IH. apply perm_swap.
Qed.

Lemma sorted_perm (l : list Z) : Permutation (sorted l) l.
Proof.
  induction l as [|x l IH]; simpl; [reflexivity|].
  rewrite insert_sorted_perm. now constructor.
Qed.

Lemma insert_sorted_ascending (x : Z) (l : list Z) :
  StronglySorted Z.le l -> StronglySorted Z.le (insert_sorted x l).
Proof.
  induction 1 as [|y l S IH Hy]; simpl; [repeat constructor|].
  destruct (Z.leb_spec x y).
  - constructor; [now constructor|]. constructor; [assumption|].
    eapply Forall_impl; [|exact Hy]. cbv beta. intros; lia.
  - constructor; [assumption|]. apply Forall_forall. intros z Iz.
    apply in_insert_sorted in Iz. destruct Iz as [-> | Iz]; [lia|].
    rewrite Forall_forall in Hy. now apply Hy.
Qed.

Lemma sorted_ascending (l : list Z) : StronglySorted Z.le (sorted l).
Proof.
  induction l as [|x l IH]; simpl; [constructor|].
  now apply insert_sorted_ascending.
Qed.

Lemma ascending_NoDup_strict (l : list Z) :
  StronglySorted Z.le l -> NoDup l -> StronglySorted Z.lt l.
Proof.
  induction 1 as [|x l S IH Hx]; intros N; [constructor|].
  inversion N as [|? ? Nx N']; subst. constructor; [auto|].
  rewrite Forall_forall in *. intros y Iy.
  specialize (Hx y Iy). destruct (Z.eq_dec x y); [subst; contradiction | lia].
Qed.

Lemma decade_options_strict {F : Type} (data : DataFrame F) :
  StronglySorted Z.lt (decade_options data).
Proof.
  unfold decade_options. apply ascending_NoDup_strict.
  - apply sorted_ascending.
  - eapply Permutation_NoDup; [symmetry; apply sorted_perm | apply unique_NoDup].
Qed.

(** The options of the decade multiselect are the decades of the table,
    each once, in ascending order; on a loaded table of int64 years each
    is at least 1960 and is a multiple of 10 or the wrapped decade
    [int64_max - 1] of the eight least int64 years. *)
Theorem decade_options_ascending :
  forall (F : Type) (data : DataFrame F),
    StronglySorted Z.lt (decade_options data) /\
    NoDup (decade_options data) /\
    (forall d, In d (decade_options data) <->
               exists r, In r data /\ decade r = d) /\
    (forall (csv : list (CsvRow F)) (d : Z),
       (forall raw, In raw csv -> int64 (csv_year raw)) ->
       In d (decade_options (load_data csv)) ->
       (1960 <= d)%Z /\
       ((d mod 10 = 0)%Z \/ d = 9223372036854775806%Z) /\
       ((forall raw, In raw csv -> (first_exact_year <= csv_year raw)%Z) ->
        (d mod 10 = 0)%Z)).
Proof.
  intros F data. split; [|split; [|split]].
  - apply decade_options_strict.
  - unfold decade_options.
    eapply Permutation_NoDup; [symmetry; apply sorted_perm | apply unique_NoDup].
  - apply in_decade_options.
  - intros csv d R I. apply in_decade_options in I. destruct I as [r [I <-]].
    apply in_load_data in I. destruct I as [raw [I [-> Y]]]. simpl.
    pose proof (R raw I) as [L U].
    split; [exact Y|]. split.
    + destruct (Z_lt_le_dec (csv_year raw) first_exact_year) as [W | E].
      * right. apply decade_of_wrapped. now split.
      * left. apply decade_of_multiple. now split.
    + intros X. apply decade_of_multiple. split; [now apply X | exact U].
Qed.

(** ** Composition of filters *)

Lemma filter_filter {A : Type} (p q : A -> bool) (l : list A) :
  filter p (filter q l) = filter (fun x => q x && p x) l.
Proof.
  induction l as [|a l IH]; simpl; [reflexivity|].
  destruct (q a); simpl; [destruct (p a)|]; now rewrite IH.
Qed.

Lemma filter_Subsequence_impl {A : Type} (p q : A -> bool) (l : list A) :
  (forall x, p x = true -> q x = true) ->
  Subsequence (filter p l) (filter q l).
Proof.
  intros H. induction l as [|a l IH]; simpl; [constructor|].
  destruct (p a) eqn:Pa.
  - rewrite (H a Pa). now constructor.
  - destruct (q a); [now constructor | assumption].
Qed.

(** Filtering twice keeps the decades selected both times, in either
    order; filtering again by the same selection changes nothing; only
    the set of selected decades matters, not their order or repetition;
    and a smaller selection gives a subsequence of the larger one's
    table. *)
Theorem filtered_data_composes :
  forall (F : Type) (data : DataFrame F) (s1 s2 : list Z),
    filtered_data (filtered_data data s1) s2
    = filtered_data data (selected_in_both s1 s2) /\
    filtered_data (filtered_data data s1) s2
    = filtered_data (filtered_data data s2) s1 /\
    filtered_data (filtered_data data s1) s1 = filtered_data data s1 /\
    ((forall d, In d s1 <-> In d s2) ->
     filtered_data data s1 = filtered_data data s2) /\
    ((forall d, In d s1 -> In d s2) ->
     Subsequence (filtered_data data s1) (filtered_data data s2)).
Proof.
  intros F data s1 s2.
  assert (B : forall d, isin (selected_in_both s1 s2) d = isin s1 d && isin s2 d).
  { intros d. apply eq_true_iff_eq.
    rewrite andb_true_iff, !isin_In. unfold selected_in_both.
    rewrite filter_In, isin_In. tauto. }
  unfold filtered_data. split; [|split; [|split; [|split]]].
  - rewrite filter_filter. apply filter_ext. intros r. now rewrite B.
  - rewrite !filter_filter. apply filter_ext. intros r. apply andb_comm.
  - rewrite filter_filter. apply filter_ext. intros r. apply andb_diag.
  - intros H. apply filter_ext. intros r. apply eq_true_iff_eq.
    rewrite !isin_In. apply H.
  - intros H. apply filter_Subsequence_impl. intros r.
    rewrite !isin_In. apply H.
Qed.

(** The options of the focus select box, which are read off the filtered
    table, are the selected decades that occur in the data; with every
    decade selected they are the options of the multiselect. *)
Theorem focus_options_are_selected :
  forall (F : Type) (data : DataFrame F) (selected_decades : list Z),
    (forall d, In d (decade_options (filtered_data data selected_decades)) <->
               In d selected_decades /\ In d (decade_options data)) /\
    decade_options (filtered_data data (decade_options data))
    = decade_options data.
Proof.
  intros F data sel. split.
  - intros d. rewrite !in_decade_options. split.
    + intros [r [I <-]]. unfold filtered_data in I.
      apply filter_In in I. destruct I as [I S]. apply isin_In in S.
      split; [assumption | now exists r].
    + intros [S [r [I <-]]]. exists r. split; [|reflexivity].
      apply filter_In. split; [assumption | now apply isin_In].
  - f_equal. unfold filtered_data. apply filter_all. intros r I.
    apply isin_In, in_decade_options. now exists r.
Qed.

(** ** The focus decade and its slice *)

Lemma last_cons {A : Type} (y : A) (t : list A) (d : A) :
  last (y :: t) d = last t y.
Proof.
  revert y d. induction t as [|a t IH]; intros y d; [reflexivity|].
  change (last (y :: a :: t) d) with (last (a :: t) d).
  now rewrite !IH.
Qed.

Lemma last_in {A : Type} (d : A) (t : list A) : In (last t d) (d :: t).
Proof.
  revert d. induction t as [|x t IH]; intros d; [now left|].
  rewrite last_cons. right. apply IH.
Qed.

Lemma last_greatest (d : Z) (t : list Z) :
  StronglySorted Z.lt (d :: t) -> forall x, In x (d :: t) -> (x <= last t d)%Z.
Proof.
  revert d. induction t as [|y t IH]; intros d S x I.
  - destruct I as [<- | []]. simpl. lia.
  - inversion S as [|? ? S' Hd]; subst.
    rewrite last_cons.
    destruct I as [<- | I].
    + rewrite Forall_forall in Hd.
      specialize (Hd (last t y) (last_in y t)). lia.
    + now apply IH.
Qed.

(** The focus select box starts on the last of its options: there is no
    focus decade exactly when the filtered table is empty; otherwise the
    focus decade is the latest decade of the table, and its slice has at
    least one row. *)
Theorem default_decade_radar_latest :
  forall (F : Type) (df : DataFrame F),
    (default_decade_radar df = None <-> df = []) /\
    (forall d, default_decade_radar df = Some d ->
       In d (decade_options df) /\
       (forall r, In r df -> (decade r <= d)%Z) /\
       decade_slice df (Some d) <> []).
Proof.
  intros F df. unfold default_decade_radar.
  pose proof (decade_options_strict df) as S.
  pose proof (in_decade_options df) as O.
  destruct (decade_options df) as [|d0 t] eqn:E.
  - split.
    + split; [|reflexivity]. intros _. destruct df as [|r df]; [reflexivity|].
      exfalso. apply (proj2 (O (decade r))). exists r. split; [now left | reflexivity].
    + discriminate.
  - split.
    + split; [discriminate|]. intros ->. destruct (proj1 (O d0)) as [r [[] _]].
      now left.
    + intros d [= <-].
      assert (I : In (last t d0) (d0 :: t)) by apply last_in.
      split; [exact I|]. split.
      * intros r Ir. apply (last_greatest d0 t S).
        apply O. now exists r.
      * apply O in I. destruct I as [r [Ir Er]]. intros N.
        assert (Hr : In r (decade_slice df (Some (last t d0)))).
        { simpl. apply filter_In. split; [assumption | now apply Z.eqb_eq]. }
        rewrite N in Hr. contradiction.
Qed.

Lemma decade_slice_filtered {F : Type} (data : DataFrame F) (sel : list Z) (d : Z) :
  decade_slice (filtered_data data sel) (Some d)
  = if isin sel d then decade_slice data (Some d) else [].
Proof.
  simpl. unfold filtered_data. rewrite filter_filter.
  destruct (isin sel d) eqn:S.
  - apply filter_ext_in. intros r _.
    destruct (Z.eqb_spec (decade r) d) as [-> | N].
    + now rewrite S.
    + apply andb_false_r.
  - apply filter_none. intros r _.
    destruct (Z.eqb_spec (decade r) d) as [-> | N].
    + now rewrite S.
    + apply andb_false_r.
Qed.

(** The views of a focus decade do not depend on what else is selected:
    for a selected decade, the slice, the fingerprint and the top songs
    computed on the filtered table are those computed on the whole table.
    For a decade that is not selected the slice is empty. *)
Theorem focus_views_ignore_other_decades :
  forall (F : Type) (AF : Arith F) (data : DataFrame F)
         (selected_decades : list Z) (d : Z),
    In d selected_decades ->
    decade_slice (filtered_data data selected_decades) (Some d)
    = decade_slice data (Some d) /\
    radar_values (filtered_data data selected_decades) (Some d)
    = radar_values data (Some d) /\
    (forall argsort : list Z -> list nat,
       top_songs argsort (filtered_data data selected_decades) (Some d)
       = top_songs argsort data (Some d)) /\
    (forall d', ~ In d' selected_decades ->
       decade_slice (filtered_data data selected_decades) (Some d') = []).
Proof.
  intros F AF data sel d I.
  assert (E : decade_slice (filtered_data data sel) (Some d)
              = decade_slice data (Some d)).
  { rewrite decade_slice_filtered. now rewrite (proj2 (isin_In sel d) I). }
  split; [exact E|]. split; [|split].
  - unfold radar_values. now rewrite E.
  - intros argsort. unfold top_songs, top_n. now rewrite E.
  - intros d' N. rewrite decade_slice_filtered.
    now rewrite (proj2 (isin_not_In sel d') N).
Qed.

Lemma list_sum_head (a : nat) (l : list nat) :
  list_sum (a :: l) = (a + list_sum l)%nat.
Proof. reflexivity. Qed.

Lemma slice_sum_other {F : Type} (r : Track F) (df : DataFrame F) (ks : list Z) :
  ~ In (decade r) ks ->
  list_sum (map (fun d => List.length (decade_slice (r :: df) (Some d))) ks)
  = list_sum (map (fun d => List.length (decade_slice df (Some d))) ks).
Proof.
  intros N. f_equal. apply map_ext_in. intros d Id. simpl.
  destruct (Z.eqb_spec (decade r) d); [subst; contradiction | reflexivity].
Qed.

Lemma slice_sum_cons {F : Type} (r : Track F) (df : DataFrame F) (ks : list Z) :
  NoDup ks ->
  In (decade r) ks ->
  list_sum (map (fun d => List.length (decade_slice (r :: df) (Some d))) ks)
  = S (list_sum (map (fun d => List.length (decade_slice df (Some d))) ks)).
Proof.
  induction 1 as [|k ks Nk N IH]; intros K; [contradiction|].
  rewrite !map_cons, !list_sum_head.
  destruct (Z.eq_dec (decade r) k) as [E | NE].
  - subst k. rewrite (slice_sum_other r df ks Nk).
    simpl. now rewrite Z.eqb_refl.
  - destruct K as [-> | K]; [contradiction|].
    rewrite (IH K). simpl.
    destruct (Z.eqb_spec (decade r) k); [contradiction | lia].
Qed.

Lemma slice_lengths {F : Type} (df : DataFrame F) (ks : list Z) :
  NoDup ks ->
  (forall r, In r df -> In (decade r) ks) ->
  list_sum (map (fun d => List.length (decade_slice df (Some d))) ks)
  = List.length df.
Proof.
  intros N. induction df as [|r df IH]; intros C.
  - simpl. clear N C. induction ks; simpl; auto.
  - rewrite slice_sum_cons; [|assumption | apply C; now left].
    simpl. f_equal. apply IH. intros x I. apply C. now right.
Qed.

(** The decade slices split the table: every row is in the slice of its
    own decade and in no other, and the sizes of the slices of the
    options add up to the size of the table. *)
Theorem decade_slices_partition :
  forall (F : Type) (df : DataFrame F),
    (forall r, In r df <->
               exists d, In d (decade_options df) /\ In r (decade_slice df (Some d))) /\
    (forall r d1 d2,
       In r (decade_slice df (Some d1)) -> In r (decade_slice df (Some d2)) ->
       d1 = d2) /\
    list_sum (map (fun d => List.length (decade_slice df (Some d)))
                  (decade_options df))
    = List.length df.
Proof.
  intros F df. split; [|split].
  - intros r. split.
    + intros I. exists (decade r). split.
      * apply in_decade_options. now exists r.
      * simpl. apply filter_In. split; [assumption | apply Z.eqb_refl].
    + intros [d [_ I]]. simpl in I. now apply filter_In in I.
  - intros r d1 d2 I1 I2. simpl in I1, I2.
    apply filter_In in I1. apply filter_In in I2.
    destruct I1 as [_ E1]. destruct I2 as [_ E2].
    apply Z.eqb_eq in E1. apply Z.eqb_eq in E2. congruence.
  - apply slice_lengths.
    + eapply Permutation_NoDup; [symmetry; apply sorted_perm | apply unique_NoDup].
    + intros r I. apply in_decade_options. now exists r.
Qed.

(** ** The trend chart under filtering *)

Section TrendUnderFilter.
Context {F : Type} {AF : Arith F}.
Variable q : Z -> bool.

Let on_key (yg : Z * @GroupAcc F) : bool := q (fst yg).

Lemma upsert_front (r : Track F) (gs : @Groups F) :
  Forall (fun k => (year r < k)%Z) (keys_of gs) ->
  upsert r gs = (year r, group_add group_init r) :: gs.
Proof.
  destruct gs as [|[y g] gs]; simpl; intros H; [reflexivity|].
  inversion H; subst. destruct (Z.ltb_spec (year r) y); [reflexivity | lia].
Qed.

Lemma keys_of_filter (y : Z) (gs : @Groups F) :
  Forall (fun k => (y < k)%Z) (keys_of gs) ->
  Forall (fun k => (y < k)%Z) (keys_of (filter on_key gs)).
Proof.
  unfold keys_of. rewrite !Forall_forall. intros H k I.
  apply in_map_iff in I. destruct I as [yg [<- I]].
  apply filter_In in I. apply H. apply in_map. apply I.
Qed.

Lemma filter_upsert (r : Track F) (gs : @Groups F) :
  StronglySorted Z.lt (keys_of gs) ->
  filter on_key (upsert r gs)
  = if q (year r) then upsert r (filter on_key gs) else filter on_key gs.
Proof.
  assert (K : forall a b, on_key (a, b) = q a) by reflexivity.
  induction gs as [|[y g] gs IH]; intros S.
  - cbn [upsert filter]. rewrite K. now destruct (q (year r)).
  - inversion S as [|? ? S' Hy]; subst. specialize (IH S').
    cbn [upsert].
    destruct (Z.ltb_spec (year r) y) as [L | G].
    + cbn [filter]. rewrite (K (year r)).
      destruct (q (year r)); [|reflexivity].
      symmetry. apply upsert_front.
      apply (keys_of_filter (year r) ((y, g) :: gs)).
      constructor; [assumption|].
      eapply Forall_impl; [|exact Hy]. cbv beta. intros; lia.
    + destruct (Z.eqb_spec (year r) y) as [E | N].
      * cbn [filter]. rewrite !K, E.
        destruct (q y); [|reflexivity].
        cbn [upsert]. rewrite E, Z.ltb_irrefl, Z.eqb_refl. reflexivity.
      * cbn [filter]. rewrite !K, IH.
        destruct (q y); [|reflexivity].
        destruct (q (year r)); [|reflexivity].
        cbn [upsert].
        destruct (Z.ltb_spec (year r) y); [lia|].
        destruct (Z.eqb_spec (year r) y); [contradiction | reflexivity].
Qed.

Lemma groupby_filter_fold (df : DataFrame F) (gs : @Groups F) :
  StronglySorted Z.lt (keys_of gs) ->
  fold_left (fun gs r => upsert r gs) (filter (fun r => q (year r)) df)
            (filter on_key gs)
  = filter on_key (fold_left (fun gs r => upsert r gs) df gs).
Proof.
  revert gs. induction df as [|r df IH]; intros gs S; [reflexivity|].
  cbn [filter fold_left].
  rewrite <- (IH (upsert r gs) (upsert_sorted r gs S)).
  rewrite (filter_upsert r gs S).
  destruct (q (year r)); reflexivity.
Qed.

Lemma yearly_filter (df : DataFrame F) :
  yearly_avg_features (filter (fun r => q (year r)) df)
  = filter (fun row => q (yr_year row)) (yearly_avg_features df).
Proof.
  unfold yearly_avg_features, groupby_year.
  change (@nil (Z * @GroupAcc F)) with (filter on_key (@nil (Z * @GroupAcc F))) at 1.
  rewrite groupby_filter_fold by constructor.
  generalize (fold_left (fun gs r => upsert r gs) df []). intros gs.
  induction gs as [|yg gs IH]; [reflexivity|].
  cbn [filter map]. unfold on_key at 1. cbn [yr_year group_mean].
  destruct (q (fst yg)); cbn [map]; now rewrite IH.
Qed.

End TrendUnderFilter.

Lemma loaded_decade {F : Type} (csv : list (CsvRow F)) (r : Track F) :
  In r (load_data csv) ->
  decade r = decade_of (year r) /\ (1960 <= decade_of (year r))%Z /\
  exists raw, In raw csv /\ csv_year raw = year r.
Proof.
  intros I. apply in_load_data in I. destruct I as [raw [I [-> Y]]].
  split; [reflexivity|]. split; [exact Y|]. now exists raw.
Qed.

(** Deselecting decades only removes their years from the trend chart:
    the yearly means of the filtered table are the yearly means of the
    whole table, restricted to the years of the selected decades, with
    the values they had. *)
Theorem yearly_avg_features_of_selection :
  forall (F : Type) (AF : Arith F) (csv : list (CsvRow F))
         (selected_decades : list Z),
    yearly_avg_features (filtered_data (load_data csv) selected_decades)
    = filter (fun row => isin selected_decades (decade_of (yr_year row)))
             (yearly_avg_features (load_data csv)).
Proof.
  intros F AF csv sel.
  rewrite <- (yearly_filter (fun y => isin sel (decade_of y))).
  f_equal. unfold filtered_data. apply filter_ext_in. intros r I.
  now rewrite (proj1 (loaded_decade csv r I)).
Qed.

Lemma unique_length (l : list Z) : (List.length (unique l) <= List.length l)%nat.
Proof.
  induction l as [|x l IH]; simpl; [lia|].
  pose proof (filter_length_le (fun y => negb (y =? x)%Z) (unique l)). lia.
Qed.

(** The trend chart has as many points as the table has distinct years,
    never more than the table has rows, and none only for an empty
    table. *)
Theorem yearly_avg_features_size :
  forall (F : Type) (AF : Arith F) (df : DataFrame F),
    List.length (yearly_avg_features df)
    = List.length (unique (map (@year F) df)) /\
    (List.length (yearly_avg_features df) <= List.length df)%nat /\
    (yearly_avg_features df = [] <-> df = []).
Proof.
  intros F AF df.
  destruct (groupby_year_spec df) as [S [K _]].
  assert (L : List.length (yearly_avg_features df)
              = List.length (unique (map (@year F) df))).
  { rewrite <- (length_map (@yr_year F)), yearly_years.
    apply Permutation_length. apply NoDup_Permutation.
    - clear K. induction S as [|k ks S IH Hk]; constructor; [|assumption].
      intros I. rewrite Forall_forall in Hk. specialize (Hk k I). lia.
    - apply unique_NoDup.
    - intros y. rewrite K, in_unique, in_map_iff.
      split; intros [r [A B]]; exists r; auto. }
  split; [exact L|]. split.
  - rewrite L. pose proof (unique_length (map (@year F) df)) as U.
    now rewrite length_map in U.
  - split.
    + intros E. destruct df as [|r df]; [reflexivity|].
      rewrite E in L. simpl in L. discriminate L.
    + intros ->. reflexivity.
Qed.

Lemma ascending_in_window (l : list Z) (a : Z) (n : nat) :
  StronglySorted Z.lt l ->
  (forall x, In x l -> (a <= x < a + Z.of_nat n)%Z) ->
  (List.length l <= n)%nat.
Proof.
  intros S. revert a n. induction S as [|x l S IH Hx]; intros a n B.
  - simpl. lia.
  - pose proof (B x (or_introl eq_refl)) as Bx.
    destruct n as [|n]; [lia|]. simpl. apply le_n_S.
    apply (IH (x + 1)%Z n). intros y Iy.
    rewrite Forall_forall in Hx. specialize (Hx y Iy).
    specialize (B y (or_intror Iy)). lia.
Qed.

(** What the loader and the filter guarantee downstream, the years
    being int64: every point of the trend chart is a year of a selected
    decade, from 1960 on or one of the eight least int64 years; every row
    of the slice of a decade was released within the ten years of that
    decade, unless its year is one of those eight and the decade the
    wrapped one; and with a single decade selected the trend chart has at
    most ten points. *)
Theorem views_stay_in_selection :
  forall (F : Type) (AF : Arith F) (csv : list (CsvRow F))
         (selected_decades : list Z),
    (forall raw, In raw csv -> int64 (csv_year raw)) ->
    (forall row,
       In row (yearly_avg_features
                 (filtered_data (load_data csv) selected_decades)) ->
       In (decade_of (yr_year row)) selected_decades /\
       (1960 <= decade_of (yr_year row))%Z /\
       (1960 <= yr_year row \/ yr_year row < first_exact_year)%Z) /\
    (forall d r,
       In r (decade_slice (filtered_data (load_data csv) selected_decades)
                          (Some d)) ->
       In d selected_decades /\ (1960 <= d)%Z /\
       ((1960 <= year r /\ d <= year r <= d + 9)%Z \/
        (year r < first_exact_year)%Z /\ d = 9223372036854775806%Z)) /\
    (forall d,
       (List.length (yearly_avg_features (filtered_data (load_data csv) [d]))
        <= 10)%nat).
Proof.
  intros F AF csv sel R.
  assert (Y : forall s row,
            In row (yearly_avg_features (filtered_data (load_data csv) s)) ->
            In (decade_of (yr_year row)) s /\
            (1960 <= decade_of (yr_year row))%Z /\ int64 (yr_year row)).
  { intros s row I.
    destruct (groupby_year_spec (filtered_data (load_data csv) s)) as [_ [K _]].
    assert (Iy : In (yr_year row)
                    (keys_of (groupby_year (filtered_data (load_data csv) s)))).
    { rewrite <- yearly_years. now apply in_map. }
    apply K in Iy. destruct Iy as [r [Ir Er]].
    unfold filtered_data in Ir. apply filter_In in Ir. destruct Ir as [Ir Sr].
    destruct (loaded_decade csv r Ir) as [D [G [raw [Iraw Eraw]]]].
    rewrite D, Er in Sr. rewrite Er in G.
    apply isin_In in Sr. split; [assumption|]. split; [assumption|].
    rewrite <- Er, <- Eraw. now apply R. }
  split; [|split].
  - intros row I. destruct (Y sel row I) as [S [G B]].
    split; [exact S|]. split; [exact G|].
    now apply (proj1 (decade_ge_1960_iff _ B)).
  - intros d r I. simpl in I. apply filter_In in I. destruct I as [I E].
    apply Z.eqb_eq in E. unfold filtered_data in I.
    apply filter_In in I. destruct I as [I S]. apply isin_In in S.
    destruct (loaded_decade csv r I) as [D [G [raw [Iraw Eraw]]]].
    assert (B : int64 (year r)) by (rewrite <- Eraw; now apply R).
    rewrite <- E. split; [assumption|]. split; [now rewrite D|].
    destruct B as [L U].
    destruct (Z_lt_le_dec (year r) first_exact_year) as [W | X].
    + right. split; [exact W|]. rewrite D. apply decade_of_wrapped. now split.
    + left. pose proof (decade_of_bounds (year r) (conj X U)) as Bd.
      pose proof (proj1 (decade_ge_1960_iff _ (conj L U)) G) as [H | H];
        [|lia].
      rewrite D. split; [exact H | lia].
  - intros d.
    rewrite <- (length_map (@yr_year F)).
    assert (S : StronglySorted Z.lt
                  (map (@yr_year F)
                     (yearly_avg_features (filtered_data (load_data csv) [d])))).
    { rewrite yearly_years. apply groupby_year_spec. }
    destruct (Z.eq_dec d 9223372036854775806) as [-> | N].
    + apply (ascending_in_window _ int64_min 10); [exact S|].
      intros y Iy. apply in_map_iff in Iy. destruct Iy as [row [<- I]].
      destruct (Y [9223372036854775806%Z] row I) as [[E | []] [_ [L U]]].
      destruct (Z_lt_le_dec (yr_year row) first_exact_year) as [W | X].
      * unfold first_exact_year, int64_min in *. lia.
      * pose proof (decade_of_multiple (yr_year row) (conj X U)) as M.
        rewrite <- E in M. discriminate M.
    + apply (ascending_in_window _ d 10); [exact S|].
      intros y Iy. apply in_map_iff in Iy. destruct Iy as [row [<- I]].
      destruct (Y [d] row I) as [[E | []] [_ [L U]]].
      destruct (Z_lt_le_dec (yr_year row) first_exact_year) as [W | X].
      * exfalso. apply N. rewrite E. apply decade_of_wrapped. now split.
      * pose proof (decade_of_bounds (yr_year row) (conj X U)). lia.
Qed.

(** ** The rows of the top songs and of the scatter sample *)

Lemma Forall2_in_right {A B : Type} (R : A -> B -> Prop) (l : list A) (l' : list B) (y : B) :
  Forall2 R l l' -> In y l' -> exists x, In x l /\ R x y.
Proof.
  induction 1 as [|a b l l' Rab _ IH]; intros I; [contradiction|].
  destruct I as [<- | I].
  - exists a. split; [now left | assumption].
  - destruct (IH I) as [x [Ix Rx]]. exists x. split; [now right | assumption].
Qed.

Lemma StronglySorted_transfer {A B : Type} (T : A -> B -> Prop)
  (R : A -> A -> Prop) (R' : B -> B -> Prop) (l : list A) (l' : list B) :
  (forall a b a' b', T a a' -> T b b' -> R a b -> R' a' b') ->
  Forall2 T l l' -> StronglySorted R l -> StronglySorted R' l'.
Proof.
  intros H F2. induction F2 as [|a a' l l' Ta F2 IH]; intros S; [constructor|].
  inversion S as [|? ? S' Ha]; subst. constructor; [auto|].
  apply Forall_forall. intros b' Ib'.
  destruct (Forall2_in_right _ _ _ _ F2 Ib') as [b [Ib Tb]].
  rewrite Forall_forall in Ha. eapply H; eauto.
Qed.

Section TakeFacts.
Context {A : Type}.

Let at_position (l : list A) (i : nat) (r : A) : Prop := nth_error l i = Some r.

Lemma positions_map (l : list A) (d : A) (idx : list nat) (out : list A) :
  Forall2 (at_position l) idx out -> out = map (fun i => nth i l d) idx.
Proof.
  induction 1 as [|i r idx out Hi _ IH]; simpl; [reflexivity|].
  f_equal; [|assumption]. symmetry. now apply nth_error_nth.
Qed.

Lemma positions_perm (l : list A) (idx : list nat) (out : list A) :
  Permutation idx (seq 0 (List.length l)) ->
  Forall2 (at_position l) idx out ->
  Permutation out l.
Proof.
  intros P F2. destruct l as [|d l].
  - apply Permutation_sym, Permutation_nil in P. subst idx.
    inversion F2. constructor.
  - rewrite (positions_map (d :: l) d idx out F2).
    apply (Permutation_map (fun i => nth i (d :: l) d)) in P.
    now rewrite (map_nth_seq (d :: l) d) in P.
Qed.

Lemma positions_in (l : list A) (idx : list nat) (out : list A) (r : A) :
  Forall2 (at_position l) idx out -> In r out -> In r l.
Proof.
  intros F2 I. destruct (Forall2_in_right _ _ _ _ F2 I) as [i [_ Hi]].
  eapply nth_error_In. exact Hi.
Qed.

End TakeFacts.

Lemma key_at_popularity {F : Type} (slice : DataFrame F) (i : nat) (r : Track F) :
  nth_error slice i = Some r ->
  key_at (map (@popularity F) slice) i = popularity r.
Proof.
  intros H. unfold key_at.
  rewrite (nth_indep _ 0%Z (popularity r)).
  - rewrite map_nth. f_equal. now apply nth_error_nth.
  - rewrite length_map. apply nth_error_Some. congruence.
Qed.

Lemma cleaned_columns {F : Type} (r0 r : Track F) :
  cleaned r0 r ->
  name r = name r0 /\ popularity r = popularity r0 /\
  year r = year r0 /\ decade r = decade r0 /\
  exists text, artists r0 = Some text /\ artists r = Some (clean_artists text).
Proof.
  intros [text [A ->]]. repeat split; try reflexivity. now exists text.
Qed.

(** The list of top songs is made from up to five rows of the focus
    decade, the most popular first; a decade of five tracks or fewer is
    listed in full.  The statement that cleans the artists fails, with
    [AttributeError], exactly when one of these rows has no artists
    text; otherwise the list holds these rows in this order, each with
    every column but the artists as in the table. *)
Theorem top_songs_rows :
  forall (F : Type) (argsort : list Z -> list nat),
    ArgsortContract argsort ->
    forall (df : DataFrame F) (sel : option Z),
      let slice := decade_slice df sel in
      exists rows,
        top_songs argsort df sel = apply_clean rows /\
        List.length rows = Nat.min 5 (List.length slice) /\
        StronglySorted (fun a b => (popularity b <= popularity a)%Z) rows /\
        (forall r0, In r0 rows -> In r0 slice /\ In r0 df) /\
        (forall d, sel = Some d -> forall r0, In r0 rows -> decade r0 = d) /\
        ((List.length slice <= 5)%nat -> Permutation rows slice) /\
        (top_songs argsort df sel = Raise AttributeError <->
         Exists (fun r0 => artists r0 = None) rows) /\
        (Forall (fun r0 => artists r0 <> None) rows ->
         exists out,
           top_songs argsort df sel = Ok out /\
           Forall2 (fun r0 r =>
                      name r = name r0 /\ popularity r = popularity r0 /\
                      year r = year r0 /\ decade r = decade r0 /\
                      exists text, artists r0 = Some text /\
                                   artists r = Some (clean_artists text))
                   rows out).
Proof.
  intros F argsort C df sel slice.
  set (keys := map (@popularity F) slice).
  assert (Lk : List.length keys = List.length slice) by apply length_map.
  assert (B : Forall (fun i => (i < List.length slice)%nat)
                     (nargsort_desc argsort keys)).
  { rewrite <- Lk. now apply nargsort_desc_bound. }
  destruct (take_valid slice _ B) as [sorted_rows [E R]].
  assert (P : Permutation sorted_rows slice).
  { apply (positions_perm slice (nargsort_desc argsort keys)); [|exact R].
    rewrite <- Lk. now apply nargsort_desc_perm. }
  assert (S : StronglySorted (fun a b => (popularity b <= popularity a)%Z)
                             sorted_rows).
  { apply (StronglySorted_transfer
             (fun i r => nth_error slice i = Some r)
             (fun i j => (key_at keys j <= key_at keys i)%Z) _
             (nargsort_desc argsort keys) sorted_rows); [|exact R|].
    - intros a b a' b' Ha Hb. unfold keys.
      now rewrite (key_at_popularity slice a a' Ha),
                  (key_at_popularity slice b b' Hb).
    - now apply nargsort_desc_sorted. }
  assert (T : top_songs argsort df sel = apply_clean (head 5 sorted_rows)).
  { unfold top_songs, top_n, sort_values_desc.
    change (map (@popularity F) (decade_slice df sel)) with keys.
    change (decade_slice df sel) with slice. now rewrite E. }
  assert (I : forall r0, In r0 (head 5 sorted_rows) -> In r0 slice).
  { intros r0 H. apply In_firstn in H. now apply (Permutation_in _ P). }
  exists (head 5 sorted_rows).
  split; [exact T|]. split; [|split; [|split; [|split; [|split; [|split]]]]].
  - unfold head. rewrite length_firstn. now rewrite (Permutation_length P).
  - now apply StronglySorted_firstn.
  - intros r0 H. split; [now apply I|].
    destruct (decade_slice_rows df sel) as [Sub _]. fold slice in Sub.
    specialize (I r0 H). clear - I Sub.
    induction Sub as [|x l1 l2 _ IH|x l1 l2 _ IH].
    + contradiction.
    + destruct I as [<- | I]; [now left | right; auto].
    + right; auto.
  - intros d -> r0 H. specialize (I r0 H).
    unfold slice in I. simpl in I. apply filter_In in I.
    now apply Z.eqb_eq.
  - intros L. unfold head. rewrite firstn_all2; [exact P|].
    now rewrite (Permutation_length P).
  - rewrite T. destruct (apply_clean_cases (head 5 sorted_rows))
      as [[out [Eo [_ A]]] | [Er X]].
    + rewrite Eo. split; [discriminate|].
      intros X. exfalso. apply Exists_exists in X. destruct X as [r0 [Hr Nr]].
      rewrite Forall_forall in A. now apply (A r0 Hr).
    + rewrite Er. split; [now intros _ | reflexivity].
  - intros A. destruct (apply_clean_ok _ A) as [out [Eo Ro]].
    exists out. split; [now rewrite T|].
    eapply Forall2_impl; [|exact Ro]. intros r0 r. apply cleaned_columns.
Qed.

(** The scatter sample is part of the table: it has [min 2000 size]
    rows, each a row of the table, and together with the rows left out it
    is a rearrangement of the table, so no row is used more often than
    the table holds it. *)
Theorem scatter_data_rows :
  forall (F rng : Type) (seeded : Z -> rng)
         (permutation : rng -> nat -> list nat * rng),
    PermutationContract permutation ->
    forall (df : DataFrame F) (global : rng),
      exists rows,
        scatter_data seeded permutation df global = (Ok rows, global) /\
        List.length rows = Nat.min 2000 (List.length df) /\
        (exists rest, Permutation (rows ++ rest) df) /\
        (forall r, In r rows -> In r df).
Proof.
  intros F rng seeded permutation C df global.
  destruct (Nat.le_gt_cases (List.length df) 2000) as [L | L].
  - exists df. split; [|split; [|split]].
    + unfold scatter_data.
      destruct (Nat.ltb_spec 2000 (List.length df)); [lia | reflexivity].
    + lia.
    + exists []. now rewrite app_nil_r.
    + auto.
  - pose proof (C (seeded 42%Z) (List.length df)) as P.
    pose proof (Permutation_seq_bound _ _ P) as B.
    set (p := fst (permutation (seeded 42%Z) (List.length df))) in *.
    assert (B1 : Forall (fun i => (i < List.length df)%nat) (firstn 2000 p)).
    { apply Forall_forall. intros i I. apply In_firstn in I.
      rewrite Forall_forall in B. now apply B. }
    assert (B2 : Forall (fun i => (i < List.length df)%nat) (skipn 2000 p)).
    { apply Forall_forall. intros i I. rewrite Forall_forall in B. apply B.
      rewrite <- (firstn_skipn 2000 p). apply in_or_app. now right. }
    destruct (take_valid df _ B1) as [rows [E1 R1]].
    destruct (take_valid df _ B2) as [rest [_ R2]].
    assert (Pm : Permutation (rows ++ rest) df).
    { apply (positions_perm df (firstn 2000 p ++ skipn 2000 p)).
      - now rewrite firstn_skipn.
      - now apply Forall2_app. }
    exists rows. split; [|split; [|split]].
    + unfold scatter_data, sample, choice.
      destruct (Nat.ltb_spec 2000 (List.length df)); [|lia].
      destruct (Nat.ltb_spec (List.length df) 2000); [lia|].
      unfold p in E1.
      destruct (permutation (seeded 42%Z) (List.length df)) as [p0 rs'].
      simpl in *. now rewrite E1.
    + rewrite <- (Forall2_length_eq _ _ _ R1), length_firstn.
      rewrite (Permutation_length P), length_seq. lia.
    + now exists rest.
    + intros r I. now apply (positions_in df _ _ r R1).
Qed.

(** The length test of the script is what keeps [sample] from failing and
    from shuffling: on a table of fewer than 2000 rows the bare call
    [sample(n=2000, random_state=42)] raises [ValueError], and on a table
    of exactly 2000 rows it returns the rows in the order the generator
    drew, while the script returns the table as it is in both cases. *)
Theorem sample_needs_length_test :
  forall (F rng : Type) (seeded : Z -> rng)
         (permutation : rng -> nat -> list nat * rng),
    PermutationContract permutation ->
    forall (df : DataFrame F) (global : rng),
      ((List.length df < 2000)%nat ->
       sample seeded permutation 2000 (Some 42%Z) df global
       = (Raise ValueError, global) /\
       scatter_data seeded permutation df global = (Ok df, global)) /\
      (List.length df = 2000%nat ->
       scatter_data seeded permutation df global = (Ok df, global) /\
       exists rows,
         sample seeded permutation 2000 (Some 42%Z) df global = (Ok rows, global) /\
         Permutation rows df /\
         Forall2 (fun i r => nth_error df i = Some r)
                 (fst (permutation (seeded 42%Z) 2000)) rows).
Proof.
  intros F rng seeded permutation C df global. split.
  - intros L. split.
    + unfold sample, choice.
      destruct (Nat.ltb_spec (List.length df) 2000); [reflexivity | lia].
    + unfold scatter_data.
      destruct (Nat.ltb_spec 2000 (List.length df)); [lia | reflexivity].
  - intros L. split.
    + unfold scatter_data.
      destruct (Nat.ltb_spec 2000 (List.length df)); [lia | reflexivity].
    + pose proof (C (seeded 42%Z) (List.length df)) as P.
      pose proof (Permutation_seq_bound _ _ P) as B.
      destruct (take_valid df _ B) as [rows [E R]].
      exists rows. split; [|split].
      * unfold sample, choice.
        destruct (Nat.ltb_spec (List.length df) 2000); [lia|].
        assert (Ef : firstn 2000 (fst (permutation (seeded 42%Z) (List.length df)))
                     = fst (permutation (seeded 42%Z) (List.length df))).
        { apply firstn_all2.
          rewrite (Permutation_length P), length_seq. lia. }
        destruct (permutation (seeded 42%Z) (List.length df)) as [p rs'] eqn:Ep.
        cbn [fst] in *. unfold bind. now rewrite Ef, E.
      * now apply (positions_perm df _ rows P).
      * rewrite <- L. exact R.
Qed.

(** ** The artists text *)

Lemma Subsequence_length {A : Type} (l1 l2 : list A) :
  Subsequence l1 l2 -> (List.length l1 <= List.length l2)%nat.
Proof. induction 1; simpl; lia. Qed.

Lemma Subsequence_trans {A : Type} (l1 l2 l3 : list A) :
  Subsequence l1 l2 -> Subsequence l2 l3 -> Subsequence l1 l3.
Proof.
  intros H12 H23. revert l1 H12.
  induction H23 as [|x l2 l3 _ IH|x l2 l3 _ IH]; intros l1 H12.
  - exact H12.
  - inversion H12; subst; constructor; auto.
  - constructor; auto.
Qed.

Lemma Subsequence_middle {A : Type} (pre l post : list A) :
  Subsequence l (pre ++ l ++ post).
Proof.
  induction pre as [|x pre IH]; simpl; [|now constructor].
  induction l as [|y l IHl]; simpl; [|now constructor].
  induction post as [|z post IHp]; constructor; assumption.
Qed.

Lemma strip_Subsequence (chars s : list ascii) :
  Subsequence (strip chars s) s.
Proof.
  destruct (strip_split chars s) as [pre [post [E _]]].
  rewrite E at 2. apply Subsequence_middle.
Qed.

Lemma strip_fixed (chars s : list ascii) :
  (forall c, hd_error s = Some c -> in_chars chars c = false) ->
  (forall c, hd_error (rev s) = Some c -> in_chars chars c = false) ->
  strip chars s = s.
Proof.
  intros H T. unfold strip, rstrip.
  rewrite (lstrip_fixed chars s H), (lstrip_fixed chars (rev s) T).
  apply rev_involutive.
Qed.

Lemma strip_same_length (chars s : list ascii) :
  List.length (strip chars s) = List.length s -> strip chars s = s.
Proof.
  destruct (strip_split chars s) as [pre [post [E _]]]. intros L.
  rewrite E in L at 2. rewrite !length_app in L.
  destruct pre; [|simpl in L; lia]. destruct post; [|simpl in L; lia].
  simpl in E. now rewrite app_nil_r in E.
Qed.

Lemma filter_same_length {A : Type} (p : A -> bool) (l : list A) :
  List.length (filter p l) = List.length l ->
  forall x, In x l -> p x = true.
Proof.
  induction l as [|a l IH]; simpl; intros L x I; [contradiction|].
  pose proof (Subsequence_length _ _ (filter_Subsequence p l)) as B.
  destruct (p a) eqn:Pa; simpl in L; [|lia].
  destruct I as [<- | I]; [assumption | apply IH; [lia | assumption]].
Qed.

(** The cleanup of the artists text only deletes: the result is the
    original text with some characters left out, in the original order,
    so it is never longer; and a text is left as it is exactly when it
    holds no single quote and has no bracket at either end. *)
Theorem clean_artists_only_deletes :
  forall x : string,
    let s := list_ascii_of_string x in
    let s' := list_ascii_of_string (clean_artists x) in
    Subsequence s' s /\
    (List.length s' <= List.length s)%nat /\
    (forall c, In c s' -> In c s) /\
    (clean_artists x = x <->
       ~ In quote s /\
       (forall c, hd_error s = Some c -> in_chars brackets c = false) /\
       (forall c, hd_error (rev s) = Some c -> in_chars brackets c = false)).
Proof.
  intros x s s'.
  assert (E : s' = replace_by_empty quote (strip brackets s)).
  { unfold s', clean_artists. apply list_ascii_of_string_of_list_ascii. }
  assert (Sub : Subsequence s' s).
  { rewrite E. eapply Subsequence_trans;
      [apply filter_Subsequence | apply strip_Subsequence]. }
  split; [exact Sub|]. split; [now apply Subsequence_length|]. split.
  - intros c. rewrite E. intros I.
    apply replace_by_empty_chars in I. destruct I as [I _].
    destruct (strip_split brackets s) as [pre [post [Es _]]].
    rewrite Es. apply in_or_app. right. apply in_or_app. now left.
  - split.
    + intros Fx.
      assert (Es : s' = s) by (unfold s'; now rewrite Fx).
      pose proof (Subsequence_length _ _ (filter_Subsequence
        (fun c => negb (Ascii.eqb c quote)) (strip brackets s))) as B1.
      pose proof (Subsequence_length _ _ (strip_Subsequence brackets s)) as B2.
      assert (L : List.length (replace_by_empty quote (strip brackets s))
                  = List.length s) by (now rewrite <- E, Es).
      unfold replace_by_empty in L.
      assert (St : strip brackets s = s) by (apply strip_same_length; lia).
      destruct (strip_split brackets s) as [_ [_ [_ [_ [_ [H T]]]]]].
      rewrite St in H, T. split; [|split; assumption].
      intros I. rewrite <- Es, E in I.
      apply replace_by_empty_chars in I. now destruct I.
    + intros [Q [H T]]. unfold clean_artists. fold s.
      rewrite (strip_fixed brackets s H T). unfold replace_by_empty.
      rewrite filter_all.
      * apply string_of_list_ascii_of_string.
      * intros c I. apply negb_true_iff, Ascii.eqb_neq. intros ->. now apply Q.
Qed.

Lemma filter_join (p : ascii -> bool) (sep : list ascii) (parts : list (list ascii)) :
  filter p (join sep parts) = join (filter p sep) (map (filter p) parts).
Proof.
  induction parts as [|a parts IH]; [reflexivity|].
  destruct parts as [|b parts]; [reflexivity|].
  change (join sep (a :: b :: parts)) with (a ++ sep ++ join sep (b :: parts)).
  rewrite !filter_app, IH. reflexivity.
Qed.

Lemma join_quoted_head (sep : list ascii) (names : list (list ascii)) (c : ascii) :
  hd_error (join sep (map quoted names)) = Some c -> c = quote.
Proof.
  destruct names as [|n [|m names]]; simpl; [discriminate| |]; now intros [= <-].
Qed.

Lemma join_quoted_last (sep : list ascii) (names : list (list ascii)) (c : ascii) :
  hd_error (rev (join sep (map quoted names))) = Some c -> c = quote.
Proof.
  induction names as [|n names IH]; [discriminate|].
  destruct names as [|m names].
  - simpl. unfold quoted. change (quote :: n ++ [quote]) with ((quote :: n) ++ [quote]).
    rewrite rev_app_distr. simpl. now intros [= <-].
  - change (join sep (map quoted (n :: m :: names)))
      with (quoted n ++ sep ++ join sep (map quoted (m :: names))).
    rewrite !rev_app_distr.
    destruct (rev (join sep (map quoted (m :: names)))) as [|d t] eqn:R.
    + exfalso. apply (f_equal (@List.length ascii)) in R.
      rewrite length_rev in R. simpl in R.
      destruct names; simpl in R; [discriminate|].
      rewrite length_app in R. simpl in R. lia.
    + simpl. intros [= <-]. now apply IH.
Qed.

(** On the text of a list of artist names as the data file holds it, an
    opening bracket, the names each between single quotes and separated
    by a comma and a space, a closing bracket, the cleanup gives the
    names separated by a comma and a space, for any number of names that
    hold no single quote themselves. *)
Theorem clean_artists_of_name_list :
  forall names : list (list ascii),
    (forall n, In n names -> ~ In quote n) ->
    clean_artists (artists_text names)
    = string_of_list_ascii (join comma_space names).
Proof.
  intros names Q. unfold clean_artists, artists_text.
  rewrite list_ascii_of_string_of_list_ascii.
  rewrite strip_bracketed.
  - f_equal. unfold replace_by_empty. rewrite filter_join, map_map.
    f_equal.
    rewrite <- (map_id names) at 2. apply map_ext_in. intros n I.
    unfold quoted. simpl. rewrite filter_app. simpl. rewrite app_nil_r.
    apply filter_all. intros c Ic.
    apply negb_true_iff, Ascii.eqb_neq. intros ->. now apply (Q n).
  - intros c H. apply join_quoted_head in H. now subst c.
  - intros c H. apply join_quoted_last in H. now subst c.
Qed.

Lemma clean_artists_of_name_list_witness :
  clean_artists
    (artists_text [list_ascii_of_string "Queen"; list_ascii_of_string "David Bowie"])
  = string_of_list_ascii
      (join comma_space
         [list_ascii_of_string "Queen"; list_ascii_of_string "David Bowie"]).
Proof.
  apply (clean_artists_of_name_list
           [list_ascii_of_string "Queen"; list_ascii_of_string "David Bowie"]).
  intros n [<- | [<- | []]]; simpl; unfold quote; intuition discriminate.
Defined.

(** ** A mean over a single track, in binary64 *)

Section Binary64Mean.
Open Scope float_scope.

Lemma neg_zero_add64 (x : float) : -0 + x = x.
Proof.
  apply Prim2SF_inj. rewrite add_spec.
  change (Prim2SF (-0)) with (S754_zero true).
  destruct (Prim2SF x) as [s|s| |s m e]; try reflexivity.
  destruct s; reflexivity.
Qed.

Lemma mean_single64 (x : float) :
  x <> -0 -> mean (AF := binary64) [x] = x.
Proof.
  intros Z. unfold mean, count_present. cbn [filter f_isnan binary64].
  destruct (is_nan x) eqn:N; cbn [negb List.length].
  - symmetry. now apply is_nan_eq.
  - assert (E : np_sum (AF := binary64) (map fill_missing [x])
                = 0 + (-0 + fill_missing x)) by reflexivity.
    rewrite E. unfold fill_missing. cbn [f_isnan f_zero binary64]. rewrite N.
    rewrite neg_zero_add64, (zero_add64 x Z).
    change (f_div x (f_of_nat 1)) with (x / 1).
    now apply div_one64.
Qed.

End Binary64Mean.

(** In binary64 the mean over a single track is the value of the track,
    bit for bit: the sum [0 + x] and the division by the count 1 round
    nothing away, and a NaN stays NaN.  A negative zero is left aside:
    the sum starts from the zero of positive sign.  So the fingerprint of
    a decade with one track is computed from the five features of that
    track as they are in the file. *)
Theorem mean_single_track64 :
  (forall x : float, x <> (-0)%float -> mean [x] = x) /\
  (forall (df : DataFrame float) (sel : option Z) (r : Track float),
     decade_slice df sel = [r] ->
     Forall (fun x => x <> (-0)%float)
            [danceability r; energy r; valence r; acousticness r; speechiness r] ->
     decade_features (decade_slice df sel)
     = [danceability r; energy r; valence r; acousticness r; speechiness r] /\
     radar_values df sel
     = fit_transform
         [danceability r; energy r; valence r; acousticness r; speechiness r]).
Proof.
  split; [exact mean_single64|].
  intros df sel r E H.
  inversion H as [|? ? H1 Ha]; subst. inversion Ha as [|? ? H2 Hb]; subst.
  inversion Hb as [|? ? H3 Hc]; subst. inversion Hc as [|? ? H4 Hd]; subst.
  inversion Hd as [|? ? H5 _]; subst.
  assert (D : decade_features (decade_slice df sel)
              = [danceability r; energy r; valence r; acousticness r; speechiness r]).
  { rewrite E. unfold decade_features. cbn [map]. now rewrite !mean_single64. }
  split; [exact D|]. unfold radar_values. now rewrite D.
Qed.

(** ** The further properties on the example tables *)

Lemma views_stay_in_selection_witness :
  Forall (fun row => In (decade_of (yr_year row)) [1960%Z])
         (yearly_avg_features
            (filtered_data (load_data example_csv) [1960%Z])).
Proof.
  assert (R : forall raw, In raw example_csv -> int64 (csv_year raw)).
  { intros raw [<- | [<- | [<- | []]]];
      unfold int64, int64_min, int64_max; simpl; lia. }
  destruct (views_stay_in_selection float binary64 example_csv [1960%Z] R)
    as [H _].
  apply Forall_forall. intros row I. now destruct (H row I).
Defined.

Lemma focus_views_ignore_other_decades_witness :
  radar_values (filtered_data (load_data example_csv) [1960%Z]) (Some 1960%Z)
  = radar_values (load_data example_csv) (Some 1960%Z).
Proof.
  destruct (focus_views_ignore_other_decades float binary64
              (load_data example_csv) [1960%Z] 1960%Z (or_introl eq_refl))
    as [_ [R _]].
  exact R.
Defined.

Lemma top_songs_rows_witness :
  exists rows,
    top_songs (insertion_argsort Z.ltb) ties_table (Some 1960%Z)
    = apply_clean rows /\
    List.length rows = 4%nat.
Proof.
  destruct (top_songs_rows float (insertion_argsort Z.ltb)
              insertion_argsort_ltb_contract ties_table (Some 1960%Z))
    as [rows [E [L _]]].
  exists rows. split; [exact E | exact L].
Defined.

Lemma scatter_data_rows_witness :
  exists rows,
    scatter_data rot_seeded rot_permutation large_table 7%nat = (Ok rows, 7%nat) /\
    forall r, In r rows -> In r large_table.
Proof.
  destruct (scatter_data_rows float nat rot_seeded rot_permutation
              rot_permutation_contract large_table 7%nat)
    as [rows [E [_ [_ I]]]].
  exists rows. split; assumption.
Defined.

Lemma sample_needs_length_test_witness :
  sample rot_seeded rot_permutation 2000 (Some 42%Z) ties_table 7%nat
  = (Raise ValueError, 7%nat) /\
  scatter_data rot_seeded rot_permutation ties_table 7%nat = (Ok ties_table, 7%nat).
Proof.
  destruct (sample_needs_length_test float nat rot_seeded rot_permutation
              rot_permutation_contract ties_table 7%nat) as [H _].
  apply H. cbn. lia.
Defined.
